(** * MutationWatcher: a shallow embedding of src/MutationWatcher.js

    The watcher wraps a root object in an ECMAScript [Proxy] whose only
    trap is [set].  Every container assigned through a wrapper is wrapped
    in turn, [handleChange] compares the new and the old value and
    [emit] calls the listeners of the written path and the global
    callback.

    The embedding keeps the objects of the program in an explicit heap,
    because the behaviour of the [set] trap depends on aliasing: the
    wrapper of a freshly attached container has that very container as
    its backing storage.

    Modelling conventions.
    - Numbers are the integers ([VNum], over [Z]), [NaN] and the two
      infinities; fractions are not represented (like the integers,
      they are identical exactly when their JSON texts are equal).
    - A function value is its identity ([VFun f]); calling it is recorded
      in the trace of the state ([Invoke]).  Listener bodies are opaque
      observers: they return normally and touch neither the heap nor
      the registry.  The trace also records every entry into [emit]
      ([Emit]), so that a dispatch is visible when nobody listens.
    - An operation either returns ([Ok]), throws ([Throw], with the
      state reached so far) or is not determined by the model
      ([Stuck]: the recursion bound is exhausted, a reference dangles
      or a coercion is not modelled).
    - Containers are ordinary objects and arrays, as object and array
      literals create them, with the standard [Object.prototype] and
      [Array.prototype].  The registry [_watch] is such an object: a
      path that names a member of [Object.prototype] reads as that
      member unless a listener array is stored under it
      ([registry_entry]).  In the watched graph the inherited members
      are not values of the model: reading a name that is not an own
      property and may be inherited is [Stuck] ([readable]), and so
      is a write that would run the setter of [__proto__].
    - Function values are functions of the program.  Where the result
      of calling one matters (an own [toJSON] or [hasOwnProperty]
      holding a function), the run is [Stuck].
    - The text produced by [JSON.stringify] is represented by its syntax
      tree ([json]); two texts are equal exactly when their trees are. *)

From Stdlib Require Import ZArith NArith Ascii String DecimalString.
From stdpp Require Import base option list strings gmap.

Local Open Scope string_scope.
Local Open Scope list_scope.

(** ** Values *)

Abbreviation loc := nat (only parsing).
Abbreviation fn := nat (only parsing).

Inductive value :=
  | VUndef
  | VNull
  | VBool (b : bool)
  | VNum (z : Z)
  | VNaN
  | VInf (negative : bool)
  | VStr (s : string)
  | VFun (f : fn)
  | VRef (l : loc).

#[global] Instance value_eq_dec : EqDecision value.
Proof. solve_decision. Defined.

(** [a === b]: identity, except that [NaN] is identical to nothing. *)
Definition strict_eq (a b : value) : bool :=
  match a with
  | VNaN => false
  | _ => bool_decide (a = b)
  end.

(** ToBoolean, as used by [if (this._callback)]. *)
Definition truthy (v : value) : bool :=
  match v with
  | VUndef | VNull => false
  | VBool b => b
  | VNum z => negb (z =? 0)%Z
  | VNaN => false
  | VStr s => negb (bool_decide (s = ""))
  | VInf _ | VFun _ | VRef _ => true
  end.

(** [typeof v === 'object' && v !== null] holds exactly for references;
    the location of the object is returned. *)
Definition is_object (v : value) : option loc :=
  match v with VRef l => Some l | _ => None end.

(** ** Property keys

    Property names are strings.  A name that is the canonical decimal
    form of an integer below [2^32 - 1] is an array index; such keys
    are enumerated first, in ascending order. *)

Definition digit_of (a : ascii) : option N :=
  let n := N_of_ascii a in
  if ((48 <=? n) && (n <=? 57))%N then Some (n - 48)%N else None.

Fixpoint digits_value (acc : N) (s : string) : option N :=
  match s with
  | EmptyString => Some acc
  | String a r =>
      match digit_of a with
      | Some d => digits_value (10 * acc + d)%N r
      | None => None
      end
  end.

Definition array_index (s : string) : option N :=
  match s with
  | EmptyString => None
  | String a r =>
      if bool_decide (a = "0"%char) then
        match r with EmptyString => Some 0%N | _ => None end
      else
        match digits_value 0 s with
        | Some n => if (n <? 2 ^ 32 - 1)%N then Some n else None
        | None => None
        end
  end.

(** ToString of an array index: the key that [a[i]] reads and writes. *)
Definition index_key (i : N) : string :=
  NilZero.string_of_uint (N.to_uint i).

(** ** The standard prototypes

    The function members of [Object.prototype], each with its number
    of parameters (its [length]).  [__proto__] is its one accessor. *)
Definition Object_prototype : list (string * nat) :=
  [("constructor", 1); ("__defineGetter__", 2); ("__defineSetter__", 2);
   ("hasOwnProperty", 1); ("__lookupGetter__", 1); ("__lookupSetter__", 1);
   ("isPrototypeOf", 1); ("propertyIsEnumerable", 1);
   ("toString", 0); ("valueOf", 0); ("toLocaleString", 0)]%nat.

Fixpoint member (k : string) (l : list (string * nat)) : option nat :=
  match l with
  | [] => None
  | (k', n) :: r => if bool_decide (k' = k) then Some n else member k r
  end.

(** A name that an ordinary object inherits. *)
Definition inherited (k : string) : bool :=
  bool_decide (k = "__proto__") || bool_decide (is_Some (member k Object_prototype)).

(** ** Objects and the heap *)

Inductive kind :=
  | Record
  | Array (len : N).

Abbreviation props := (list (string * value)).

Inductive object :=
  | Plain (kd : kind) (ps : props)
  | Proxy (target : loc) (parentName : string).

Abbreviation heap := (list object).

Fixpoint assoc (k : string) (ps : props) : option value :=
  match ps with
  | [] => None
  | (k', v) :: r => if bool_decide (k' = k) then Some v else assoc k r
  end.

(** Overwrite in place, or append a new property. *)
Fixpoint update (k : string) (v : value) (ps : props) : props :=
  match ps with
  | [] => [(k, v)]
  | (k', v') :: r =>
      if bool_decide (k' = k) then (k, v) :: r else (k', v') :: update k v r
  end.

Fixpoint insert_index (i : N) (k : string) (l : list (N * string)) : list (N * string) :=
  match l with
  | [] => [(i, k)]
  | (j, k') :: r => if (i <? j)%N then (i, k) :: l else (j, k') :: insert_index i k r
  end.

Fixpoint index_keys (ps : props) : list (N * string) :=
  match ps with
  | [] => []
  | (k, _) :: r =>
      match array_index k with
      | Some i => insert_index i k (index_keys r)
      | None => index_keys r
      end
  end.

Fixpoint name_keys (ps : props) : list string :=
  match ps with
  | [] => []
  | (k, _) :: r =>
      match array_index k with
      | Some _ => name_keys r
      | None => k :: name_keys r
      end
  end.

(** The enumerable own keys in the order of [for ... in] and of
    [JSON.stringify]: array indices ascending, then the other names in
    insertion order. *)
Definition own_keys (ps : props) : list string :=
  map snd (index_keys ps) ++ name_keys ps.

(** The value of the own property [k] ([length] is an own property of
    an array), [undefined] when there is no such own property. *)
Definition own_value (kd : kind) (ps : props) (k : string) : value :=
  match kd with
  | Array len =>
      if bool_decide (k = "length") then VNum (Z.of_N len)
      else default VUndef (assoc k ps)
  | Record => default VUndef (assoc k ps)
  end.

(** The names [o[k]] is determined for: the own properties, and the
    names that are certainly not inherited.  For an ordinary object
    these are the names that [Object.prototype] does not have; for an
    array, whose prototype has members that depend on the edition of
    the language, the indices. *)
Definition readable (kd : kind) (ps : props) (k : string) : bool :=
  bool_decide (is_Some (assoc k ps))
  || match kd with
     | Record => negb (inherited k)
     | Array _ => bool_decide (k = "length") || bool_decide (is_Some (array_index k))
     end.

(** Ordinary [[Get]] on a plain object: [None] when the result is an
    inherited member. *)
Definition read (kd : kind) (ps : props) (k : string) : option value :=
  if readable kd ps k then Some (own_value kd ps k) else None.

Definition has_own (kd : kind) (ps : props) (k : string) : bool :=
  match kd with
  | Array _ => bool_decide (k = "length") || bool_decide (is_Some (assoc k ps))
  | Record => bool_decide (is_Some (assoc k ps))
  end.

Inductive written :=
  | Written (kd : kind) (ps : props)
  | RangeError
  | Unmodelled.

Definition keeps (n : N) (kv : string * value) : bool :=
  match array_index kv.1 with
  | Some i => (i <? n)%N
  | None => true
  end.

(** Ordinary [[Set]] on a plain object.  A name that is not an own
    property becomes one (the function members of the prototypes are
    writable data properties), except [__proto__], whose inherited
    setter is not modelled.  Writing an index at or beyond the length
    of an array extends the length; writing [length] with a number
    truncates the array (other length values need coercions that are
    not modelled). *)
Definition set_plain (kd : kind) (ps : props) (k : string) (v : value) : written :=
  if bool_decide (k = "__proto__") && negb (bool_decide (is_Some (assoc k ps)))
  then Unmodelled else
  match kd with
  | Record => Written Record (update k v ps)
  | Array len =>
      if bool_decide (k = "length") then
        match v with
        | VNum z =>
            if ((0 <=? z) && (z <? 2 ^ 32))%Z
            then Written (Array (Z.to_N z)) (filter (λ kv, keeps (Z.to_N z) kv = true) ps)
            else RangeError
        | _ => Unmodelled
        end
      else
        match array_index k with
        | Some i => Written (Array (N.max len (i + 1))) (update k v ps)
        | None => Written (Array len) (update k v ps)
        end
  end.

(** A proxy without the trap in question forwards the operation to its
    target; [backing] follows the chain of wrappers down to the plain
    object that stores the properties. *)
Fixpoint backing_aux (n : nat) (h : heap) (l : loc) : option (kind * props) :=
  match n with
  | O => None
  | S n' =>
      match h !! l with
      | Some (Plain kd ps) => Some (kd, ps)
      | Some (Proxy t _) => backing_aux n' h t
      | None => None
      end
  end.

Definition backing (h : heap) (l : loc) : option (kind * props) :=
  backing_aux (length h) h l.

(** ** State, outcomes and the monad of the interpreter *)

Inductive action :=
  | Emit (path : string) (newVal oldVal : value)
  | Invoke (f : fn) (args : list value).

#[global] Instance action_eq_dec : EqDecision action.
Proof. solve_decision. Defined.

Record state := State { st_heap : heap; st_trace : list action }.

Inductive outcome (A : Type) :=
  | Ok (a : A) (s : state)
  | Throw (s : state)
  | Stuck.
Arguments Ok {A} a s.
Arguments Throw {A} s.
Arguments Stuck {A}.

Definition M (A : Type) : Type := state → outcome A.

Definition ret {A} (a : A) : M A := λ s, Ok a s.

Definition bind {A B} (m : M A) (k : A → M B) : M B :=
  λ s, match m s with
       | Ok a s' => k a s'
       | Throw s' => Throw s'
       | Stuck => Stuck
       end.

Declare Scope js_scope.
Delimit Scope js_scope with js.
Notation "x ← m ; k" := (bind m (λ x, k))
  (at level 20, m at level 100, k at level 200, only parsing) : js_scope.
Notation "m ;; k" := (bind m (λ _, k))
  (at level 100, k at level 200, only parsing, right associativity) : js_scope.
Local Open Scope js_scope.

Definition throw {A} : M A := λ s, Throw s.
Definition stuck {A} : M A := λ _, Stuck.

Definition log (a : action) : M unit :=
  λ s, Ok tt (State (st_heap s) (st_trace s ++ [a])).

Definition alloc (o : object) : M loc :=
  λ s, Ok (length (st_heap s)) (State (st_heap s ++ [o]) (st_trace s)).

(** [target[name]] *)
Definition Get (l : loc) (k : string) : M value :=
  λ s, match backing (st_heap s) l with
       | Some (kd, ps) =>
           match read kd ps k with
           | Some v => Ok v s
           | None => Stuck
           end
       | None => Stuck
       end.

(** [o.hasOwnProperty(i)]: the method is looked up on [o].  When no
    own property shadows it, it is [Object.prototype.hasOwnProperty];
    an own property of that name is called instead when it is a
    function, and the call is a TypeError when it is not. *)
Definition hasOwnProperty (l : loc) (k : string) : M bool :=
  λ s, match backing (st_heap s) l with
       | Some (kd, ps) =>
           match assoc "hasOwnProperty" ps with
           | None => Ok (has_own kd ps k) s
           | Some (VFun _) => Stuck
           | Some _ => Throw s
           end
       | None => Stuck
       end.

(** The keys visited by [for (i in o)]. *)
Definition for_in_keys (l : loc) : M (list string) :=
  λ s, match backing (st_heap s) l with
       | Some (_, ps) => Ok (own_keys ps) s
       | None => Stuck
       end.

Fixpoint for_each {A} (l : list A) (body : A → M unit) : M unit :=
  match l with
  | [] => ret tt
  | x :: r => body x ;; for_each r body
  end.

(** Calling a value: a function is invoked, anything else is a
    TypeError. *)
Definition call (f : value) (args : list value) : M unit :=
  match f with
  | VFun g => log (Invoke g args)
  | _ => throw
  end.

(** ** JSON.stringify

    [Done None] stands for the result [undefined] (no text), [Cyclic]
    for the TypeError raised on a circular structure and [Unknown] for
    what the model does not determine: a dangling reference, or a
    container whose own [toJSON] is a function, which
    [JSON.stringify] calls, before it looks for a cycle, to obtain the
    value to serialize.  [NaN] and the infinities are written [null]. *)

#[warnings="-register-all"]
Inductive json :=
  | JNull
  | JBool (b : bool)
  | JNum (z : Z)
  | JStr (s : string)
  | JArr (elts : list json)
  | JObj (members : list (string * json)).

Inductive ser (A : Type) :=
  | Done (a : A)
  | Cyclic
  | Unknown.
Arguments Done {A} a.
Arguments Cyclic {A}.
Arguments Unknown {A}.

(** Members of an object: a property without text is left out. *)
Fixpoint ser_members (l : list (string * ser (option json))) : ser (list (string * json)) :=
  match l with
  | [] => Done []
  | (k, Done (Some j)) :: r =>
      match ser_members r with
      | Done m => Done ((k, j) :: m)
      | Cyclic => Cyclic
      | Unknown => Unknown
      end
  | (_, Done None) :: r => ser_members r
  | (_, Cyclic) :: _ => Cyclic
  | (_, Unknown) :: _ => Unknown
  end.

(** Elements of an array: an element without text is written [null]. *)
Fixpoint ser_elements (l : list (ser (option json))) : ser (list json) :=
  match l with
  | [] => Done []
  | Done o :: r =>
      match ser_elements r with
      | Done m => Done (default JNull o :: m)
      | Cyclic => Cyclic
      | Unknown => Unknown
      end
  | Cyclic :: _ => Cyclic
  | Unknown :: _ => Unknown
  end.

Definition ser_map {A B} (f : A → B) (r : ser A) : ser B :=
  match r with
  | Done a => Done (f a)
  | Cyclic => Cyclic
  | Unknown => Unknown
  end.

Definition indices (len : N) : list N := map N.of_nat (seq 0 (N.to_nat len)).

(** [typeof o.toJSON === 'function'] for an own property ([toJSON] is
    a member of neither standard prototype). *)
Definition calls_toJSON (ps : props) : bool :=
  match assoc "toJSON" ps with
  | Some (VFun _) => true
  | _ => false
  end.

Fixpoint stringify (fuel : nat) (h : heap) (stack : list loc) (v : value)
  : ser (option json) :=
  match v with
  | VUndef | VFun _ => Done None
  | VNull => Done (Some JNull)
  | VBool b => Done (Some (JBool b))
  | VNum z => Done (Some (JNum z))
  | VNaN | VInf _ => Done (Some JNull)
  | VStr s => Done (Some (JStr s))
  | VRef l =>
      match backing h l with
      | None => Unknown
      | Some (kd, ps) =>
          if calls_toJSON ps then Unknown
          else if bool_decide (l ∈ stack) then Cyclic
          else
            match fuel with
            | O => Unknown
            | S f =>
                match kd with
                | Record =>
                    ser_map (λ m, Some (JObj m))
                      (ser_members
                         (map (λ k, (k, stringify f h (l :: stack) (own_value Record ps k)))
                              (own_keys ps)))
                | Array len =>
                    ser_map (λ m, Some (JArr m))
                      (ser_elements
                         (map (λ i, stringify f h (l :: stack)
                                      (own_value (Array len) ps (index_key i)))
                              (indices len)))
                end
            end
      end
  end.

(** The stack of enclosing objects never repeats a location, so one
    unit of fuel per heap cell is enough. *)
Definition JSON_stringify (v : value) : M (option json) :=
  λ s, match stringify (S (length (st_heap s))) (st_heap s) [] v with
       | Done r => Ok r s
       | Cyclic => Throw s
       | Unknown => Stuck
       end.

Fixpoint json_eqb (a b : json) : bool :=
  match a, b with
  | JNull, JNull => true
  | JBool x, JBool y => bool_decide (x = y)
  | JNum x, JNum y => bool_decide (x = y)
  | JStr x, JStr y => bool_decide (x = y)
  | JArr xs, JArr ys =>
      (fix go (xs ys : list json) : bool :=
         match xs, ys with
         | [], [] => true
         | x :: xs', y :: ys' => json_eqb x y && go xs' ys'
         | _, _ => false
         end) xs ys
  | JObj xs, JObj ys =>
      (fix go (xs ys : list (string * json)) : bool :=
         match xs, ys with
         | [], [] => true
         | (k, x) :: xs', (k', y) :: ys' =>
             bool_decide (k = k') && json_eqb x y && go xs' ys'
         | _, _ => false
         end) xs ys
  | _, _ => false
  end.

(** [JSON.stringify(a) === JSON.stringify(b)] on the two results. *)
Definition text_eq (a b : option json) : bool :=
  match a, b with
  | None, None => true
  | Some x, Some y => json_eqb x y
  | _, _ => false
  end.

(** ** The watcher *)

Record MutationWatcher := Watcher {
  obj : loc;
  _callback : value;
  _watch : gmap string (list value)
}.

(** The field [_watch] holds the listener arrays that [watch] and
    [unWatch] have stored.  The object itself is created as [{}]: a
    path under which no array is stored may still name a member of
    [Object.prototype], and [this._watch[path]] is then that member: a
    function with its number of parameters, or, for [__proto__], the
    prototype object. *)
Inductive entry :=
  | Listeners (arr : list value)
  | Method (arity : nat)
  | Prototype
  | Missing.

(** [this._watch[path]] *)
Definition registry_entry (self : MutationWatcher) (path : string) : entry :=
  match _watch self !! path with
  | Some arr => Listeners arr
  | None =>
      if bool_decide (path = "__proto__") then Prototype
      else match member path Object_prototype with
           | Some n => Method n
           | None => Missing
           end
  end.

(** The listener array stored under [path], empty when none is. *)
Definition listeners (self : MutationWatcher) (path : string) : list value :=
  default [] (_watch self !! path).

(** The outcome of a method of the registry. *)
Inductive result (A : Type) :=
  | Returns (a : A)
  | TypeError.
Arguments Returns {A} a.
Arguments TypeError {A}.

(** [watch(path, callback)] (MutationWatcher.js, lines 30-35): the
    instance after the call (the method returns [this]).  When
    [this._watch[path]] is an inherited member, [this._watch[path] || []]
    is that member; the assignment stores it back under the path,
    where it reads as before, and the member has no [push]: a
    TypeError. *)
Definition watch (path : string) (callback : value) (self : MutationWatcher)
  : result MutationWatcher :=
  let store arr :=
    Watcher (obj self) (_callback self) (<[path := arr ++ [callback]]> (_watch self)) in
  match registry_entry self path with
  | Listeners arr => Returns (store arr)
  | Missing => Returns (store [])
  | Method _ | Prototype => TypeError
  end.

(** [arr.indexOf(x)]: position of the first element identical to [x],
    [-1] when there is none. *)
Fixpoint indexOf (x : value) (arr : list value) : Z :=
  match arr with
  | [] => -1
  | y :: r =>
      if strict_eq y x then 0
      else let i := indexOf x r in if (i =? -1)%Z then -1 else (i + 1)
  end%Z.

(** [arr.splice(index, 1)] *)
Definition splice1 (index : nat) (arr : list value) : list value :=
  take index arr ++ drop (S index) arr.

(** [unWatch(path, callback)] (lines 45-57): the instance after the
    call and the returned boolean.  An inherited member has no
    [indexOf]: a TypeError. *)
Definition unWatch (path : string) (callback : value) (self : MutationWatcher)
  : result (MutationWatcher * bool) :=
  let remove arr :=
    let index := indexOf callback arr in
    if (-1 <? index)%Z then
      (Watcher (obj self) (_callback self)
               (<[path := splice1 (Z.to_nat index) arr]> (_watch self)), true)
    else
      (Watcher (obj self) (_callback self) (<[path := arr]> (_watch self)), false) in
  match registry_entry self path with
  | Listeners arr => Returns (remove arr)
  | Missing => Returns (remove [])
  | Method _ | Prototype => TypeError
  end.

(** [emit(path, newVal, oldVal)] (lines 65-83).  The trace first
    records the dispatch itself, then every call made.  An inherited
    function with parameters passes the test
    [listenerArr && listenerArr.length]; its element [0] is
    [undefined], and calling that is a TypeError. *)
Definition emit (self : MutationWatcher) (path : string) (newVal oldVal : value)
  : M unit :=
  log (Emit path newVal oldVal) ;;
  match registry_entry self path with
  | Listeners listenerArr =>
      if negb (length listenerArr =? 0)%nat
      then for_each listenerArr (λ f, call f [newVal; oldVal])
      else ret tt
  | Method arity => if negb (arity =? 0)%nat then throw else ret tt
  | Prototype | Missing => ret tt
  end ;;
  if truthy (_callback self)
  then call (_callback self) [VStr path; newVal; oldVal]
  else ret tt.

(** [handleChange(path, newVal, oldVal)] (lines 91-100) *)
Definition handleChange (self : MutationWatcher) (path : string)
    (newVal oldVal : value) : M unit :=
  if strict_eq newVal oldVal then ret tt
  else
    a ← JSON_stringify newVal;
    b ← JSON_stringify oldVal;
    if text_eq a b then ret tt
    else emit self path newVal oldVal.

(** [_generateHandler(parentName)] (lines 119-154): the handler is
    determined by the prefix its [set] trap closes over
    ([parentName || ''] is [parentName] for every string). *)
Definition _generateHandler (parentName : string) : string := parentName.

(** [_hook(obj, path)] (lines 109-111):
    [new Proxy(obj, this._generateHandler(path))] *)
Definition _hook (o : loc) (path : string) : M value :=
  p ← alloc (Proxy o (_generateHandler path));
  ret (VRef p).

(** The [set] trap of the handler generated for [parentName] (lines
    125-152).  The assignments [target[name] = ...] and
    [finalVal[i] = ...] of the body are passed as [assign_], since
    either may reach another wrapper. *)
Definition set (self : MutationWatcher) (parentName : string)
    (assign_ : loc → string → value → M unit)
    (target : loc) (name : string) (newVal : value) : M unit :=
  oldVal ← Get target name;
  finalVal ← match is_object newVal with
              | Some o => _hook o ((parentName +:+ name) +:+ ".")
              | None => ret newVal
              end;
  assign_ target name finalVal ;;
  handleChange self (parentName +:+ name) newVal oldVal ;;
  match is_object newVal, is_object finalVal with
  | Some o, Some p =>
      keys ← for_in_keys o;
      for_each keys
        (λ i, b ← hasOwnProperty o i;
              if b : bool then v ← Get o i; assign_ p i v else ret tt)
  | _, _ => ret tt
  end.

(** [o[name] = v] for a reference [o]: an ordinary write on a plain
    object, the [set] trap on a wrapper. *)
Fixpoint assign (fuel : nat) (self : MutationWatcher)
    (l : loc) (name : string) (v : value) : M unit :=
  match fuel with
  | O => stuck
  | S f => λ s,
      match st_heap s !! l with
      | Some (Plain kd ps) =>
          match set_plain kd ps name v with
          | Written kd' ps' =>
              Ok tt (State (<[l := Plain kd' ps']> (st_heap s)) (st_trace s))
          | RangeError => Throw s
          | Unmodelled => Stuck
          end
      | Some (Proxy target parentName) =>
          set self parentName (assign f self) target name v s
      | None => Stuck
      end
  end.

(** [new MutationWatcher(callback)] (lines 12-18): the instance [this]
    and the value of the [new] expression.  The constructor returns an object, the
    wrapper of [this.obj], so that object is what [new] evaluates to. *)
Definition MutationWatcher_new (callback : value) : M (MutationWatcher * value) :=
  o ← alloc (Plain Record []);
  let this := Watcher o callback ∅ in
  r ← _hook (obj this) "";
  ret (this, r).

(** [w.m(...)] looks the method up on [w] first; calling [undefined]
    is a TypeError. *)
Definition method_lookup (w : value) (m : string) : M value :=
  match w with
  | VRef l => Get l m
  | _ => throw
  end.

(** The older variant of the dispatcher (src/unnamed/part_000). *)
Module Part000.

(** [change(prop, newVal, oldVal)] (lines 33-39).  The console line
    computes [JSON.stringify] of the old and then of the new value,
    either of which may throw (the output itself is not recorded).
    Then, when [this._watch[prop]] has a non-zero [length], it is
    called: a listener array is not a function, a TypeError; what an
    inherited function does when called is not modelled.  The global
    callback is never used. *)
Definition change (self : MutationWatcher) (prop : string)
    (newVal oldVal : value) : M unit :=
  JSON_stringify oldVal ;;
  JSON_stringify newVal ;;
  match registry_entry self prop with
  | Listeners listenerArr =>
      if negb (length listenerArr =? 0)%nat then throw else ret tt
  | Method arity => if negb (arity =? 0)%nat then stuck else ret tt
  | Prototype | Missing => ret tt
  end.

End Part000.

Definition empty_state : state := State [] [].

Definition run {A} (m : M A) : outcome A := m empty_state.

Definition final {A} (o : outcome A) : option state :=
  match o with
  | Ok _ s => Some s
  | Throw s => Some s
  | Stuck => None
  end.

(** The dispatches recorded in a trace. *)
Definition dispatches (t : list action) : list (string * value * value) :=
  omap (λ a, match a with
             | Emit p n o => Some (p, n, o)
             | Invoke _ _ => None
             end) t.

(** ** Vocabulary of the statements *)

(** The values that are neither containers nor functions. *)
Definition primitive (v : value) : bool :=
  match v with
  | VUndef | VNull | VBool _ | VNum _ | VNaN | VInf _ | VStr _ => true
  | VFun _ | VRef _ => false
  end.


(** The JSON text of a value that is not a container. *)
Definition prim_text (v : value) : option json :=
  match v with
  | VNull => Some JNull
  | VBool b => Some (JBool b)
  | VNum z => Some (JNum z)
  | VNaN | VInf _ => Some JNull
  | VStr s => Some (JStr s)
  | VUndef | VFun _ | VRef _ => None
  end.

(** No own property of the container stands in for a method that the
    trap or [JSON.stringify] looks up on it: there is no own
    [hasOwnProperty], and an own [toJSON], if any, is not a function. *)
Definition unshadowed (ps : props) : bool :=
  bool_decide (assoc "hasOwnProperty" ps = None) && negb (calls_toJSON ps).

(** The comparison of [handleChange] on two values with their texts:
    no change is reported when the values are identical or the texts
    are equal. *)
Definition same (a : value) (ta : option json) (b : value) (tb : option json) : bool :=
  strict_eq a b || text_eq ta tb.

(** A container all of whose own properties hold non-container values. *)
Definition flat (ps : props) : Prop :=
  Forall (λ kv : string * value, is_object kv.2 = None) ps.

(** What every array built by the language satisfies: [length] is not
    stored among the properties and exceeds every index present. *)
Definition wf_object (kd : kind) (ps : props) : Prop :=
  match kd with
  | Record => True
  | Array len =>
      Forall (λ kv : string * value,
                kv.1 ≠ "length" ∧ ∀ i, array_index kv.1 = Some i → (i < len)%N) ps
  end.

(** The loop of the trap, [for (i in o) if (o.hasOwnProperty(i)) p[i] = o[i]],
    for a container [o] and its wrapper [p]. *)
Definition reassign (assign_ : loc → string → value → M unit) (o p : loc) : M unit :=
  keys ← for_in_keys o;
  for_each keys
    (λ i, b ← hasOwnProperty o i;
          if b : bool then v ← Get o i; assign_ p i v else ret tt).

(** A pre-built sub-graph: the objects reachable from [o] are plain
    (unwrapped), at most [d] levels deep, none of them shadows
    [hasOwnProperty] or has a [toJSON] function, and they form a tree,
    that is, the sub-graphs below two different properties share no
    cell and none contains [o].  [fp] bounds the cells of the tree and
    [F k] those below the property [k]. *)
Fixpoint tree (d : nat) (h : heap) (o : loc) (fp : gset loc) : Prop :=
  match d with
  | O => False
  | S d' =>
      ∃ kd ps (F : string → gset loc),
        h !! o = Some (Plain kd ps)
        ∧ wf_object kd ps
        ∧ unshadowed ps = true
        ∧ NoDup (own_keys ps)
        ∧ o ∈ fp
        ∧ (∀ k, F k ⊆ fp ∧ o ∉ F k)
        ∧ (∀ k k', k ≠ k' → F k ## F k')
        ∧ (∀ k c, assoc k ps = Some (VRef c) → tree d' h c (F k))
  end.



(** [path] can be watched: a listener array is stored under it, or it
    names no member of [Object.prototype]. *)
Definition watchable (self : MutationWatcher) (path : string) : Prop :=
  is_Some (_watch self !! path) ∨ inherited path = false.

(** Every registered listener is a function, and so is the global
    callback when one is set: [emit] calls nothing but functions on a
    path that can be watched. *)
Definition callable_listeners (self : MutationWatcher) : Prop :=
  (∀ path, ∃ fs, listeners self path = map VFun fs)
  ∧ (truthy (_callback self) = false ∨ ∃ g, _callback self = VFun g).

(** The dot-joined path of a sequence of property names. *)
Definition path_of (names : list string) : string := String.concat "." names.

(** The prefix closed over by the wrapper reached from the root
    through [names]. *)
Fixpoint prefix_of (names : list string) : string :=
  match names with
  | [] => ""
  | k :: r => k +:+ "." +:+ prefix_of r
  end.

(** A method of the registry called inside a program. *)
Definition raise {A} (r : result A) : M A :=
  match r with
  | Returns a => ret a
  | TypeError => throw
  end.

Definition ref_loc (v : value) : M loc :=
  match v with
  | VRef l => ret l
  | _ => stuck
  end.



(** [w.watch(path, c1); ...; w.watch(path, cn)] *)
Fixpoint watch_all (path : string) (callbacks : list value) (self : MutationWatcher)
  : result MutationWatcher :=
  match callbacks with
  | [] => Returns self
  | callback :: r =>
      match watch path callback self with
      | Returns self' => watch_all path r self'
      | TypeError => TypeError
      end
  end.

(** Whether a path has a dot. *)
Fixpoint dotted (s : string) : bool :=
  match s with
  | EmptyString => false
  | String a r => bool_decide (a = "."%char) || dotted r
  end.


(** The paths of the writes that attach a chain of containers under
    the given names, below a wrapper with the prefix [pre]. *)
Fixpoint chain_paths (pre : string) (names : list string) : list string :=
  match names with
  | [] => []
  | k :: r => (pre +:+ k) :: chain_paths ((pre +:+ k) +:+ ".") r
  end.

(** ** Programs used in the examples *)

Definition the_trace : M (list action) := λ s, Ok (st_trace s) s.

(** [var w = new MutationWatcher(); w.watch("count", cb)] *)
Definition call_watch_on_new (cb : value) : M unit :=
  wr ← MutationWatcher_new VUndef;
  f ← method_lookup wr.2 "watch";
  call f [VStr "count"; cb].

(** The scenario on the instance [this] of the constructor, writing
    through the wrapper that [new] returned. *)
Definition count_scenario (cb : fn) : M (list action) :=
  wr ← MutationWatcher_new VUndef;
  self ← raise (watch "count" (VFun cb) wr.1);
  root ← ref_loc wr.2;
  assign 3 self root "count" (VNum 1);;
  assign 3 self root "count" (VNum 1);;
  assign 3 self root "count" (VNum 2);;
  the_trace.

(** [root.user = {name: "Ann", age: 3}] on an empty root. *)
Definition bulk_attach : M (list action) :=
  wr ← MutationWatcher_new VUndef;
  root ← ref_loc wr.2;
  u ← alloc (Plain Record [("name", VStr "Ann"); ("age", VNum 3)]);
  assign 4 wr.1 root "user" (VRef u);;
  the_trace.

(** [root.user = {name: "Ann", age: 3}; root.user.name = "Bob"]: a write
    below the attached container. *)
Definition attach_then_write : M (list action) :=
  wr ← MutationWatcher_new VUndef;
  root ← ref_loc wr.2;
  u ← alloc (Plain Record [("name", VStr "Ann"); ("age", VNum 3)]);
  assign 4 wr.1 root "user" (VRef u);;
  user ← Get root "user";
  user ← ref_loc user;
  assign 4 wr.1 user "name" (VStr "Bob");;
  the_trace.

(** [root.a = {b: {c: 1}, n: "x"}]: a nested sub-graph. *)
Definition nested_attach : M (list action) :=
  wr ← MutationWatcher_new VUndef;
  root ← ref_loc wr.2;
  b ← alloc (Plain Record [("c", VNum 1)]);
  a ← alloc (Plain Record [("b", VRef b); ("n", VStr "x")]);
  assign 6 wr.1 root "a" (VRef a);;
  the_trace.



(** [root.a = {}; root.a.b = 5; root.items = []; root.items[0] = "x"] *)
Definition path_examples : M (list action) :=
  wr ← MutationWatcher_new VUndef;
  root ← ref_loc wr.2;
  o ← alloc (Plain Record []);
  assign 4 wr.1 root "a" (VRef o);;
  a ← Get root "a";
  a ← ref_loc a;
  assign 4 wr.1 a "b" (VNum 5);;
  arr ← alloc (Plain (Array 0) []);
  assign 4 wr.1 root "items" (VRef arr);;
  items ← Get root "items";
  items ← ref_loc items;
  assign 4 wr.1 items (index_key 0) (VStr "x");;
  the_trace.

(** [root.a = {}; root.a = root.a; root.a.x = 1]: the sub-graph that is
    already intercepted is assigned again, then written once. *)
Definition reassign_wrapped : M (list action) :=
  wr ← MutationWatcher_new VUndef;
  root ← ref_loc wr.2;
  o ← alloc (Plain Record []);
  assign 4 wr.1 root "a" (VRef o);;
  a ← Get root "a";
  assign 4 wr.1 root "a" a;;
  a' ← Get root "a";
  a' ← ref_loc a';
  assign 4 wr.1 a' "x" (VNum 1);;
  the_trace.

(** One write of [1] to [x] through a container wrapped [n] times with
    the same prefix. *)
Fixpoint wrap_times (n : nat) (o : loc) (path : string) : M loc :=
  match n with
  | O => ret o
  | S n' => p ← _hook o path; p ← ref_loc p; wrap_times n' p path
  end.

Definition write_through_layers (n : nat) : M (list action) :=
  o ← alloc (Plain Record []);
  p ← wrap_times n o "a.";
  assign 4 (Watcher o VUndef ∅) p "x" (VNum 1);;
  the_trace.

(** [root.f = f; root.f = g] for two functions. *)
Definition replace_function (f g : fn) : M (list action) :=
  wr ← MutationWatcher_new VUndef;
  root ← ref_loc wr.2;
  assign 3 wr.1 root "f" (VFun f);;
  assign 3 wr.1 root "f" (VFun g);;
  the_trace.

(** [var a = {}; a.self = a; root.x = a] *)
Definition attach_cycle : M (list action) :=
  wr ← MutationWatcher_new VUndef;
  root ← ref_loc wr.2;
  a ← alloc (Plain Record []);
  assign 3 wr.1 a "self" (VRef a);;
  assign 4 wr.1 root "x" (VRef a);;
  the_trace.

(** ** The interceptor of the older variant (src/unnamed/part_000)

    The constructor takes the object to watch, [_hook] always wraps
    under the empty prefix, and the [set] trap calls [Part000.change]
    after every write, without comparing the old and the new value.
    (The field [callback] of that variant is the field [_callback] of
    the record.) *)
Module Part000Trap.

(** [_hook(obj)] (part_000, lines 41-43) *)
Definition _hook (o : loc) : M value :=
  p ← alloc (Proxy o (_generateHandler ""));
  ret (VRef p).

(** The [set] trap (part_000, lines 51-78). *)
Definition set (self : MutationWatcher) (parentName : string)
    (assign_ : loc → string → value → M unit)
    (target : loc) (name : string) (newVal : value) : M unit :=
  oldVal ← Get target name;
  finalVal ← match is_object newVal with
              | Some o =>
                  p ← alloc (Proxy o (_generateHandler ((parentName +:+ name) +:+ ".")));
                  ret (VRef p)
              | None => ret newVal
              end;
  assign_ target name finalVal ;;
  Part000.change self (parentName +:+ name) newVal oldVal ;;
  match is_object newVal, is_object finalVal with
  | Some o, Some p =>
      keys ← for_in_keys o;
      for_each keys
        (λ i, b ← hasOwnProperty o i;
              if b : bool then v ← Get o i; assign_ p i v else ret tt)
  | _, _ => ret tt
  end.

Fixpoint assign (fuel : nat) (self : MutationWatcher)
    (l : loc) (name : string) (v : value) : M unit :=
  match fuel with
  | O => stuck
  | S f => λ s,
      match st_heap s !! l with
      | Some (Plain kd ps) =>
          match set_plain kd ps name v with
          | Written kd' ps' =>
              Ok tt (State (<[l := Plain kd' ps']> (st_heap s)) (st_trace s))
          | RangeError => Throw s
          | Unmodelled => Stuck
          end
      | Some (Proxy target parentName) =>
          set self parentName (assign f self) target name v s
      | None => Stuck
      end
  end.

(** [new MutationWatcher(obj, callback)] (part_000, lines 4-10) *)
Definition MutationWatcher_new (o : loc) (callback : value)
  : M (MutationWatcher * value) :=
  let this := Watcher o callback ∅ in
  r ← _hook o;
  ret (this, r).

End Part000Trap.

(** ** Vocabulary of the further properties *)

(** [layers h p pres t]: in [h], the cell [p] reaches the cell [t]
    through a chain of wrappers whose prefixes are [pres], outermost
    first; every wrapper was allocated after its target. *)
Inductive layers (h : heap) : loc → list string → loc → Prop :=
  | layers_here t : layers h t [] t
  | layers_wrap p q pre pres t :
      h !! p = Some (Proxy q pre) → (q < p)%nat →
      layers h q pres t →
      layers h p (pre :: pres) t.

(** [grows s s']: the heap of [s'] extends that of [s], every wrapper
    of [s] is the same wrapper in [s'], every plain object of [s] is
    still a plain object, and the trace of [s'] extends that of [s]. *)
Definition grows (s s' : state) : Prop :=
  (length (st_heap s) ≤ length (st_heap s'))%nat
  ∧ (∀ l t pre, st_heap s !! l = Some (Proxy t pre) →
                st_heap s' !! l = Some (Proxy t pre))
  ∧ (∀ l kd ps, st_heap s !! l = Some (Plain kd ps) →
                ∃ kd' ps', st_heap s' !! l = Some (Plain kd' ps'))
  ∧ st_trace s `prefix_of` st_trace s'.

(** [maintains R m]: every run of [m] that returns or throws leaves a
    state related by [R] to the one it started in. *)
Definition maintains (R : state → state → Prop) {A} (m : M A) : Prop :=
  ∀ s sf, final (m s) = Some sf → R s sf.

(** [wrapped d h0 h q o pre fp]: the tree of plain containers that
    [o] was in [h0] is, in [h], wrapped at every level: [q] is a
    wrapper of [o] with prefix [pre], [o] has the keys it had, its
    non-container properties are what they were, and every property
    [k] that held a container [c] now holds a wrapper of [c] with
    prefix [pre ++ k ++ "."], the tree of [c] being wrapped likewise. *)
Fixpoint wrapped (d : nat) (h0 h : heap) (q o : loc) (pre : string)
    (fp : gset loc) : Prop :=
  match d with
  | O => False
  | S d' =>
      h !! q = Some (Proxy o pre)
      ∧ ∃ kd ps0 ps (F : string → gset loc),
          h0 !! o = Some (Plain kd ps0)
          ∧ h !! o = Some (Plain kd ps)
          ∧ o ∈ fp
          ∧ (∀ k, F k ⊆ fp)
          ∧ map fst ps = map fst ps0
          ∧ ∀ k, match assoc k ps0 with
                 | Some (VRef c) =>
                     ∃ q', assoc k ps = Some (VRef q')
                           ∧ wrapped d' h0 h q' c ((pre +:+ k) +:+ ".") (F k)
                 | r => assoc k ps = r
                 end
  end.

(** The own properties of a container are either non-containers or the
    container itself. *)
Definition only_self_references (o : loc) (ps : props) : Prop :=
  Forall (λ kv : string * value, is_object kv.2 = None ∨ kv.2 = VRef o) ps.

(** The paths under which the properties of a container attached at
    [path] are re-assigned. *)
Definition child_paths (path : string) (ps : props) : list string :=
  map (λ i, ((path +:+ ".") +:+ i)) (own_keys ps).

Definition unwatched (self : MutationWatcher) (paths : list string) : bool :=
  forallb (λ p, bool_decide (listeners self p = [])) paths.

(** * The watch registry *)

Section Registry.

Implicit Types (self : MutationWatcher) (path : string) (cb : value).
Implicit Types (arr : list value).

Lemma strict_eq_refl (a : value) : a ≠ VNaN → strict_eq a a = true.
Proof. intros Ha. unfold strict_eq. destruct a; try done; by apply bool_decide_true. Qed.

Lemma strict_eq_ne (a b : value) : a ≠ b → strict_eq a b = false.
Proof. intros Hne. unfold strict_eq. destruct a; try done; by apply bool_decide_false. Qed.

Lemma inherited_false path :
  inherited path = false →
  path ≠ "__proto__" ∧ member path Object_prototype = None.
Proof.
  unfold inherited. intros [H1 H2]%orb_false_elim.
  apply bool_decide_eq_false in H1, H2. split; [done|].
  destruct (member path Object_prototype); [|done]. destruct H2. by eexists.
Qed.

Lemma registry_entry_stored self path arr :
  _watch self !! path = Some arr → registry_entry self path = Listeners arr.
Proof. intros H. unfold registry_entry. by rewrite H. Qed.

Lemma registry_entry_missing self path :
  _watch self !! path = None → inherited path = false →
  registry_entry self path = Missing.
Proof.
  intros H [H1 H2]%inherited_false. unfold registry_entry.
  by rewrite H, bool_decide_false, H2.
Qed.

Lemma registry_entry_inherited self path :
  _watch self !! path = None → inherited path = true →
  registry_entry self path = Prototype ∨ ∃ n, registry_entry self path = Method n.
Proof.
  intros H Hin. unfold registry_entry. rewrite H.
  case_bool_decide as Hp; [by left|]. right.
  unfold inherited in Hin. rewrite bool_decide_false in Hin by done.
  apply bool_decide_eq_true in Hin as [n Hn]. rewrite Hn. by eexists.
Qed.

Lemma registry_entry_watchable self path :
  watchable self path →
  registry_entry self path
  = match _watch self !! path with Some arr => Listeners arr | None => Missing end.
Proof.
  intros [[arr H]|H].
  - by rewrite H, (registry_entry_stored _ _ _ H).
  - destruct (_watch self !! path) as [arr|] eqn:E.
    + by apply registry_entry_stored.
    + by apply registry_entry_missing.
Qed.

Lemma listeners_stored self path arr :
  listeners self path = arr → arr ≠ [] → _watch self !! path = Some arr.
Proof.
  unfold listeners. destruct (_watch self !! path); simpl; congruence.
Qed.

Lemma indexOf_absent cb arr : cb ∉ arr → indexOf cb arr = (-1)%Z.
Proof.
  induction arr as [|y r IH]; simpl; [done|].
  intros [Hne Hr]%not_elem_of_cons.
  rewrite strict_eq_ne by congruence.
  rewrite IH by done. done.
Qed.

Lemma indexOf_first cb l1 l2 :
  cb ≠ VNaN → cb ∉ l1 → indexOf cb (l1 ++ cb :: l2) = Z.of_nat (length l1).
Proof.
  intros Hnan. induction l1 as [|y r IH]; simpl.
  - intros _. by rewrite strict_eq_refl.
  - intros [Hne Hr]%not_elem_of_cons.
    rewrite strict_eq_ne by congruence.
    rewrite IH by done.
    destruct (Z.eqb_spec (Z.of_nat (length r)) (-1)); lia.
Qed.

(** [NaN] is identical to nothing: [indexOf] never finds it. *)
Lemma indexOf_NaN arr : indexOf VNaN arr = (-1)%Z.
Proof.
  induction arr as [|y r IH]; simpl; [done|].
  replace (strict_eq y VNaN) with false; [by rewrite IH|].
  symmetry. destruct y; try done; by apply bool_decide_false.
Qed.

Lemma splice1_middle (x : value) l1 l2 :
  splice1 (length l1) (l1 ++ x :: l2) = l1 ++ l2.
Proof.
  unfold splice1.
  rewrite take_app_length.
  replace (S (length l1)) with (length (l1 ++ [x])) by (rewrite length_app; simpl; lia).
  rewrite (cons_middle x l1 l2), app_assoc, drop_app_length. done.
Qed.

Lemma listeners_insert o c (m : gmap string (list value)) path arr :
  listeners (Watcher o c (<[path := arr]> m)) path = arr.
Proof. unfold listeners; simpl. by rewrite lookup_insert_eq. Qed.

Lemma unWatch_found self path cb l1 l2 :
  _watch self !! path = Some (l1 ++ cb :: l2) → cb ≠ VNaN → cb ∉ l1 →
  unWatch path cb self =
    Returns (Watcher (obj self) (_callback self) (<[path := l1 ++ l2]> (_watch self)),
             true).
Proof.
  intros Harr Hnan Hn. unfold unWatch. rewrite (registry_entry_stored _ _ _ Harr).
  rewrite indexOf_first by done.
  destruct (Z.ltb_spec (-1) (Z.of_nat (length l1))); [|lia].
  by rewrite Nat2Z.id, splice1_middle.
Qed.

Lemma unWatch_absent self path cb :
  watchable self path → cb ∉ listeners self path →
  unWatch path cb self =
    Returns (Watcher (obj self) (_callback self)
               (<[path := listeners self path]> (_watch self)), false).
Proof.
  intros Hw Hn. unfold unWatch. rewrite (registry_entry_watchable _ _ Hw).
  unfold listeners in *.
  destruct (_watch self !! path) as [arr|]; cbn [default] in *;
    by rewrite indexOf_absent by done.
Qed.

Lemma watch_watchable self path cb :
  watchable self path →
  watch path cb self =
    Returns (Watcher (obj self) (_callback self)
               (<[path := listeners self path ++ [cb]]> (_watch self))).
Proof.
  intros Hw. unfold watch. rewrite (registry_entry_watchable _ _ Hw).
  unfold listeners. by destruct (_watch self !! path).
Qed.

(** C6.  [unWatch] with a path that names a member of
    [Object.prototype], under which no listener array is stored, does
    not return [false]: it throws a TypeError, because
    [this._watch[path] || []] is the inherited member, which has no
    [indexOf]. *)
Theorem unWatch_throws_on_inherited_path self path cb :
  _watch self !! path = None → inherited path = true →
  unWatch path cb self = TypeError.
Proof.
  intros Hnone Hin. unfold unWatch.
  by destruct (registry_entry_inherited _ _ Hnone Hin) as [-> | [n ->]].
Qed.

(** C10.  [watch] with a path that names a member of
    [Object.prototype], under which no listener array is stored,
    throws a TypeError (the inherited member has no [push]): the
    callback is not registered and the [unWatch] that follows is never
    reached. *)
Theorem watch_throws_on_inherited_path self path cb (s : state) :
  _watch self !! path = None → inherited path = true →
  watch path cb self = TypeError
  ∧ (self1 ← raise (watch path cb self); raise (unWatch path cb self1)) s = Throw s.
Proof.
  intros Hnone Hin.
  assert (watch path cb self = TypeError) as Hw.
  { unfold watch. by destruct (registry_entry_inherited _ _ Hnone Hin) as [-> | [n ->]]. }
  split; [done|]. unfold bind. by rewrite Hw.
Qed.

End Registry.
(** * The dispatcher *)

Section Dispatcher.

Implicit Types (self : MutationWatcher) (path : string) (s : state).

Lemma for_each_invokes (fs : list fn) (args : list value) s :
  for_each (map VFun fs) (λ f, call f args) s =
    Ok tt (State (st_heap s) (st_trace s ++ map (λ f, Invoke f args) fs)).
Proof.
  revert s. induction fs as [|f r IH]; intros [h t]; simpl.
  - by rewrite app_nil_r.
  - unfold bind, call, log; simpl. rewrite IH; simpl.
    by rewrite <- app_assoc.
Qed.

(** The per-path stage of [emit] on a path that can be watched. *)
Lemma emit_stage_functions self path (args : list value) s0 fs :
  watchable self path → listeners self path = map VFun fs →
  match registry_entry self path with
  | Listeners listenerArr =>
      if negb (length listenerArr =? 0)%nat
      then for_each listenerArr (λ f, call f args)
      else ret tt
  | Method arity => if negb (arity =? 0)%nat then throw else ret tt
  | Prototype | Missing => ret tt
  end s0 = Ok tt (State (st_heap s0) (st_trace s0 ++ map (λ f, Invoke f args) fs)).
Proof.
  intros Hw Hfs. rewrite (registry_entry_watchable _ _ Hw). unfold listeners in Hfs.
  destruct (_watch self !! path) as [arr|]; simpl in Hfs.
  - subst arr. destruct fs as [|f r].
    + simpl. unfold ret. destruct s0; simpl. by rewrite app_nil_r.
    + change (negb (length (map VFun (f :: r)) =? 0)%nat) with true.
      cbv iota. apply for_each_invokes.
  - destruct fs; [|done]. unfold ret. destruct s0; simpl. by rewrite app_nil_r.
Qed.

Lemma emit_functions self path newVal oldVal s fs :
  watchable self path →
  listeners self path = map VFun fs →
  emit self path newVal oldVal s =
    let t := st_trace s ++ Emit path newVal oldVal
               :: map (λ f, Invoke f [newVal; oldVal]) fs in
    match _callback self with
    | VFun g => Ok tt (State (st_heap s) (t ++ [Invoke g [VStr path; newVal; oldVal]]))
    | c => if truthy c then Throw (State (st_heap s) t) else Ok tt (State (st_heap s) t)
    end.
Proof.
  intros Hw Hfs. unfold emit.
  unfold bind at 1. unfold log at 1. unfold bind at 1.
  rewrite (emit_stage_functions self path [newVal; oldVal] _ fs Hw Hfs). simpl.
  rewrite <- app_assoc. simpl.
  destruct (_callback self) as [| |b|z| |neg|str|g|l]; simpl; unfold ret, throw, log; simpl;
    try done.
  - by destruct b.
  - by destruct (z =? 0)%Z.
  - by destruct (bool_decide (str = "")).
Qed.

(** C3.  The per-path stage of [emit] reads [this._watch[path]]
    without asking whether the entry is the registry's own: for a
    path that names a function of [Object.prototype] with parameters
    ([constructor], [hasOwnProperty], ...), under which nothing is
    registered, the loop calls element [0] of that function, which is
    [undefined].  [emit] throws a TypeError there, and the global
    callback is not invoked. *)
Theorem emit_throws_on_inherited_path self path newVal oldVal s n :
  _watch self !! path = None →
  member path Object_prototype = Some (S n) →
  emit self path newVal oldVal s
  = Throw (State (st_heap s) (st_trace s ++ [Emit path newVal oldVal])).
Proof.
  intros Hnone Hm. unfold emit, registry_entry. rewrite Hnone.
  rewrite bool_decide_false by (by intros ->). rewrite Hm. done.
Qed.

Lemma change_no_listeners self path s :
  listeners self path = [] → inherited path = false →
  match registry_entry self path with
  | Listeners listenerArr =>
      if negb (length listenerArr =? 0)%nat then throw else ret tt
  | Method arity => if negb (arity =? 0)%nat then stuck else ret tt
  | Prototype | Missing => ret tt
  end s = Ok tt s.
Proof.
  intros Hnil Hin.
  rewrite (registry_entry_watchable self path) by (by right).
  unfold listeners in Hnil. destruct (_watch self !! path) as [arr|]; [|done].
  simpl in Hnil. by subst arr.
Qed.

(** C9, amended.  On a path with no registered listener, the names of
    the members of [Object.prototype] left aside: in
    [MutationWatcher.js] the per-path stage of [emit] makes no call
    and does not throw, and the global callback, if set, is called.
    The older [change] has no per-path call to make either, but it
    has no global stage at all: when the two values have JSON texts
    it returns without any call, also when a callback is set; and it
    throws when [JSON.stringify], which it applies to the old and then
    to the new value for its console line, throws. *)
Theorem emit_without_listeners self path newVal oldVal s :
  listeners self path = [] →
  inherited path = false →
  (∀ g, _callback self = VFun g →
     emit self path newVal oldVal s =
       Ok tt (State (st_heap s)
                (st_trace s ++ [Emit path newVal oldVal;
                                Invoke g [VStr path; newVal; oldVal]])))
  ∧ (truthy (_callback self) = false →
     emit self path newVal oldVal s =
       Ok tt (State (st_heap s) (st_trace s ++ [Emit path newVal oldVal])))
  ∧ (∀ a b, JSON_stringify oldVal s = Ok a s → JSON_stringify newVal s = Ok b s →
       Part000.change self path newVal oldVal s = Ok tt s)
  ∧ (∀ s', JSON_stringify oldVal s = Throw s' →
       Part000.change self path newVal oldVal s = Throw s')
  ∧ (∀ a s', JSON_stringify oldVal s = Ok a s → JSON_stringify newVal s = Throw s' →
       Part000.change self path newVal oldVal s = Throw s').
Proof.
  intros Hnil Hin.
  assert (watchable self path) as Hw by (by right).
  split_and!.
  - intros g Hg. rewrite (emit_functions self path newVal oldVal s []) by done.
    rewrite Hg. simpl. by rewrite <- app_assoc.
  - intros Hfalsy. rewrite (emit_functions self path newVal oldVal s []) by done.
    simpl. destruct (_callback self); simpl in *; try done; by rewrite Hfalsy.
  - intros a b Ha Hb. unfold Part000.change, bind. rewrite Ha, Hb.
    by apply change_no_listeners.
  - intros s' Ha. unfold Part000.change, bind. by rewrite Ha.
  - intros a s' Ha Hb. unfold Part000.change, bind. by rewrite Ha, Hb.
Qed.

Lemma for_each_call_final (arr : list value) (args : list value) s :
  ∃ sf, final (for_each arr (λ f, call f args) s) = Some sf
        ∧ st_heap sf = st_heap s
        ∧ dispatches (st_trace sf) = dispatches (st_trace s).
Proof.
  revert s. induction arr as [|f r IH]; intros s; simpl.
  - by exists s.
  - unfold bind. destruct f; simpl; try (by exists s).
    destruct (IH (State (st_heap s) (st_trace s ++ [Invoke f args])))
      as (sf & Hf & Hh & Hd).
    exists sf. split_and!; [done | done |].
    rewrite Hd. simpl. unfold dispatches. rewrite omap_app. simpl. by rewrite app_nil_r.
Qed.

(** Whatever the listeners are, [emit] records exactly one dispatch
    and leaves the heap alone. *)
Lemma emit_final self path newVal oldVal s :
  ∃ sf, final (emit self path newVal oldVal s) = Some sf
        ∧ st_heap sf = st_heap s
        ∧ dispatches (st_trace sf)
          = dispatches (st_trace s) ++ [(path, newVal, oldVal)].
Proof.
  unfold emit, bind at 1, log at 1. unfold bind.
  match goal with
  | |- context [match ?m ?x with Ok _ _ => _ | Throw _ => _ | Stuck => _ end] =>
      set (s1 := x); set (r := m s1)
  end.
  assert (dispatches (st_trace s1) = dispatches (st_trace s) ++ [(path, newVal, oldVal)])
    as Hd1 by (unfold dispatches; simpl; by rewrite omap_app).
  assert (∃ sf, final r = Some sf
                ∧ st_heap sf = st_heap s1
                ∧ dispatches (st_trace sf) = dispatches (st_trace s1)) as Hloop.
  { subst r. destruct (registry_entry self path) as [arr|n| |]; try (by exists s1).
    - destruct (negb (length arr =? 0)%nat); [apply for_each_call_final | by exists s1].
    - destruct (negb (n =? 0)%nat); by exists s1. }
  destruct Hloop as (s2 & Hf & Hh & Hd).
  assert (st_heap s1 = st_heap s) as Hh1 by done.
  clearbody r s1.
  destruct r as [[] s2'|s2'|]; simpl in Hf; [| |done].
  - injection Hf as ->.
    destruct (truthy (_callback self)).
    + destruct (_callback self); simpl; unfold throw, log;
        try (exists s2; split_and!; [done | congruence | congruence]).
      eexists; split_and!; [done | simpl; congruence |].
      simpl. unfold dispatches in *. rewrite omap_app. simpl. rewrite app_nil_r. congruence.
    + exists s2. split_and!; [done | congruence | congruence].
  - injection Hf as ->. exists s2. split_and!; [done | congruence | congruence].
Qed.

End Dispatcher.
(** * JSON texts *)

Section Json.

Lemma json_nested_ind (P : json → Prop) :
  P JNull → (∀ b, P (JBool b)) → (∀ z, P (JNum z)) → (∀ s, P (JStr s)) →
  (∀ l, Forall P l → P (JArr l)) →
  (∀ l, Forall (λ kv : string * json, P kv.2) l → P (JObj l)) →
  ∀ j, P j.
Proof.
  intros HN HB HZ HS HA HO. fix IH 1. intros [|b|z|s|l|l].
  - exact HN.
  - apply HB.
  - apply HZ.
  - apply HS.
  - apply HA. induction l as [|x r IHl]; constructor; [apply IH | exact IHl].
  - apply HO. induction l as [|[k x] r IHl]; constructor; [apply IH | exact IHl].
Qed.

(** [json_eqb] decides equality of texts. *)
Lemma json_eqb_eq (a b : json) : json_eqb a b = true ↔ a = b.
Proof.
  revert b. induction a as [|x|x|x|l IHl|l IHl] using json_nested_ind;
    intros [|y|y|y|l'|l']; cbn [json_eqb];
    try (split; [done | discriminate]);
    try (rewrite bool_decide_eq_true; split; congruence).
  - done.
  - revert l'. induction IHl as [|x r Hx _ IHr]; intros [|y r'];
      try (split; [done | discriminate]); [done|].
    rewrite andb_true_iff, Hx, IHr. split; [intros [-> [= ->]]; done | by intros [= -> ->]].
  - revert l'. induction IHl as [|[k x] r Hx _ IHr]; intros [|[k' y] r'];
      try (split; [done | discriminate]); [done|].
    rewrite !andb_true_iff, bool_decide_eq_true. cbn [snd] in Hx. rewrite Hx, IHr.
    split; [intros [[-> ->] [= ->]]; done | by intros [= -> -> ->]].
Qed.

Lemma text_eq_eq (a b : option json) : text_eq a b = true ↔ a = b.
Proof.
  destruct a as [x|], b as [y|]; cbn [text_eq]; try (split; [done | discriminate]);
    [|done].
  rewrite json_eqb_eq. split; congruence.
Qed.

End Json.

(** * The interceptor *)

Section Interceptor.

Implicit Types (self : MutationWatcher) (s : state) (h : heap).
Implicit Types (kd : kind) (ps : props) (name path parentName : string).
Implicit Types (fuel : nat) (p target l : loc).

Lemma bind_ret_tt (m : M unit) s : bind m (λ _, ret tt) s = m s.
Proof. unfold bind, ret. by destruct (m s) as [[] ?| |]. Qed.

Lemma backing_plain h l kd ps :
  h !! l = Some (Plain kd ps) → backing h l = Some (kd, ps).
Proof.
  intros Hl. unfold backing.
  destruct (length h) as [|n] eqn:Hlen.
  - apply lookup_lt_Some in Hl. lia.
  - simpl. by rewrite Hl.
Qed.

Lemma backing_proxy_plain h p t pre kd ps :
  h !! p = Some (Proxy t pre) → h !! t = Some (Plain kd ps) →
  backing h p = Some (kd, ps).
Proof.
  intros Hp Ht. unfold backing.
  assert (p ≠ t) by congruence.
  apply lookup_lt_Some in Hp as Hp'. apply lookup_lt_Some in Ht as Ht'.
  destruct (length h) as [|[|n]] eqn:Hlen; [lia | lia |].
  simpl. by rewrite Hp, Ht.
Qed.

Lemma read_readable kd ps k :
  readable kd ps k = true → read kd ps k = Some (own_value kd ps k).
Proof. intros H. unfold read. by rewrite H. Qed.

Lemma readable_own kd ps k v : assoc k ps = Some v → readable kd ps k = true.
Proof.
  intros H. unfold readable. rewrite H.
  by rewrite (bool_decide_true (is_Some (Some v))).
Qed.

Lemma Get_backing s l kd ps k :
  backing (st_heap s) l = Some (kd, ps) → readable kd ps k = true →
  Get l k s = Ok (own_value kd ps k) s.
Proof. intros Hb Hr. unfold Get. by rewrite Hb, read_readable. Qed.

Lemma Get_plain s l kd ps k :
  st_heap s !! l = Some (Plain kd ps) → readable kd ps k = true →
  Get l k s = Ok (own_value kd ps k) s.
Proof. intros Hl. apply Get_backing. by apply backing_plain. Qed.

Lemma unshadowed_spec ps :
  unshadowed ps = true → assoc "hasOwnProperty" ps = None ∧ calls_toJSON ps = false.
Proof.
  unfold unshadowed. intros [H1 H2]%andb_true_iff.
  apply bool_decide_eq_true in H1. by apply negb_true_iff in H2.
Qed.

Lemma stringify_noncontainer fuel h stack v :
  is_object v = None → stringify fuel h stack v = Done (prim_text v).
Proof. by destruct v, fuel. Qed.

Lemma JSON_stringify_done v s t :
  stringify (S (length (st_heap s))) (st_heap s) [] v = Done t →
  JSON_stringify v s = Ok t s.
Proof. intros H. unfold JSON_stringify. by rewrite H. Qed.




(** [handleChange] when both texts are known: the dispatch is
    suppressed exactly when the values are identical or the texts
    agree. *)
Lemma handleChange_texts self path a b s ta tb :
  stringify (S (length (st_heap s))) (st_heap s) [] a = Done ta →
  stringify (S (length (st_heap s))) (st_heap s) [] b = Done tb →
  handleChange self path a b s =
    if same a ta b tb then Ok tt s else emit self path a b s.
Proof.
  intros Ha Hb. unfold handleChange, same.
  destruct (strict_eq a b); [done|].
  unfold bind. rewrite (JSON_stringify_done _ _ _ Ha), (JSON_stringify_done _ _ _ Hb).
  by destruct (text_eq ta tb).
Qed.

Lemma handleChange_noncontainer self path a b s :
  is_object a = None → is_object b = None →
  handleChange self path a b s =
    if same a (prim_text a) b (prim_text b) then Ok tt s else emit self path a b s.
Proof. intros Ha Hb. apply handleChange_texts; by apply stringify_noncontainer. Qed.

Lemma handleChange_same self path a s :
  is_object a = None ∨ a ≠ VNaN →
  handleChange self path a a s = Ok tt s.
Proof.
  intros Ha. destruct (decide (a = VNaN)) as [->|Hn].
  - by rewrite handleChange_noncontainer.
  - unfold handleChange. by rewrite strict_eq_refl.
Qed.

Lemma handleChange_refl self path a s : handleChange self path a a s = Ok tt s.
Proof.
  apply handleChange_same. destruct (decide (a = VNaN)) as [->|Hn]; [by left | by right].
Qed.

(** [handleChange] dispatches at most once, for its own path, and
    does not touch the heap. *)
Lemma handleChange_final self path a b s sf :
  final (handleChange self path a b s) = Some sf →
  st_heap sf = st_heap s
  ∧ (dispatches (st_trace sf) = dispatches (st_trace s)
     ∨ dispatches (st_trace sf) = dispatches (st_trace s) ++ [(path, a, b)]).
Proof.
  unfold handleChange. destruct (strict_eq a b).
  { cbn. intros ?; simplify_eq. auto. }
  unfold bind, JSON_stringify.
  destruct (stringify (S (length (st_heap s))) (st_heap s) [] a) as [ta| |];
    [|cbn; intros ?; simplify_eq; auto|done].
  destruct (stringify (S (length (st_heap s))) (st_heap s) [] b) as [tb| |];
    [|cbn; intros ?; simplify_eq; auto|done].
  destruct (text_eq ta tb).
  { cbn. intros ?; simplify_eq. auto. }
  destruct (emit_final self path a b s) as (sf' & Hf & Hh & Hd).
  rewrite Hf. intros ?; simplify_eq. auto.
Qed.

Lemma assign_plain fuel self l kd ps name v kd' ps' s :
  st_heap s !! l = Some (Plain kd ps) →
  set_plain kd ps name v = Written kd' ps' →
  assign (S fuel) self l name v s =
    Ok tt (State (<[l := Plain kd' ps']> (st_heap s)) (st_trace s)).
Proof. intros Hl Hset. cbn [assign]. by rewrite Hl, Hset. Qed.

Lemma assign_proxy fuel self p target parentName name v s :
  st_heap s !! p = Some (Proxy target parentName) →
  assign (S fuel) self p name v s =
    set self parentName (assign fuel self) target name v s.
Proof. intros Hp. cbn [assign]. by rewrite Hp. Qed.

(** A write of a non-container value through a wrapper that sits
    directly on a plain object: the value is committed and
    [handleChange] runs once, with the path of the wrapper. *)
Lemma assign_noncontainer self s p target parentName kd ps name newVal kd' ps' fuel :
  st_heap s !! p = Some (Proxy target parentName) →
  st_heap s !! target = Some (Plain kd ps) →
  readable kd ps name = true →
  is_object newVal = None →
  set_plain kd ps name newVal = Written kd' ps' →
  (2 ≤ fuel)%nat →
  assign fuel self p name newVal s =
    handleChange self (parentName +:+ name) newVal (own_value kd ps name)
      (State (<[target := Plain kd' ps']> (st_heap s)) (st_trace s)).
Proof.
  intros Hp Ht Hr Hv Hset Hfuel.
  destruct fuel as [|[|f]]; [lia | lia |].
  rewrite (assign_proxy _ _ _ _ _ _ _ _ Hp). unfold set.
  unfold bind at 1. rewrite (Get_plain _ _ _ _ _ Ht Hr).
  rewrite Hv. unfold bind at 1. unfold ret at 1.
  unfold bind at 1. rewrite (assign_plain _ _ _ _ _ _ _ _ _ _ Ht Hset).
  apply bind_ret_tt.
Qed.

(** ** Attaching a pre-built container *)

Lemma assoc_elem k v ps : assoc k ps = Some v → (k, v) ∈ ps.
Proof.
  induction ps as [|[k' v'] r IH]; simpl; [done|].
  case_bool_decide as Hk.
  - intros [= ->]. subst. apply list_elem_of_here.
  - intros H. apply list_elem_of_further. by apply IH.
Qed.

Lemma update_same k v ps : assoc k ps = Some v → update k v ps = ps.
Proof.
  induction ps as [|[k' v'] r IH]; simpl; [done|].
  case_bool_decide as Hk.
  - intros [= ->]. by subst.
  - intros H. by rewrite IH.
Qed.

Lemma insert_index_elem i k j k' (l : list (N * string)) :
  (j, k') ∈ insert_index i k l → (j, k') = (i, k) ∨ (j, k') ∈ l.
Proof.
  induction l as [|[i0 k0] r IH]; simpl.
  - intros ->%list_elem_of_singleton. by left.
  - destruct (i <? i0)%N.
    + intros [->|H]%elem_of_cons; [by left | by right].
    + intros [->|H]%elem_of_cons.
      * right. apply list_elem_of_here.
      * destruct (IH H) as [->|H']; [by left|]. right. by apply list_elem_of_further.
Qed.

Lemma index_keys_assoc i k ps : (i, k) ∈ index_keys ps → is_Some (assoc k ps).
Proof.
  induction ps as [|[k' v'] r IH]; simpl.
  - by intros ?%elem_of_nil.
  - intros H. case_bool_decide as Hk; [by eexists|].
    destruct (array_index k') as [i'|]; [|by apply IH].
    apply insert_index_elem in H as [[= -> ->]|H]; [done | by apply IH].
Qed.

Lemma name_keys_assoc k ps : k ∈ name_keys ps → is_Some (assoc k ps).
Proof.
  induction ps as [|[k' v'] r IH]; simpl.
  - by intros ?%elem_of_nil.
  - intros H. case_bool_decide as Hk; [by eexists|].
    destruct (array_index k') as [i'|]; [by apply IH|].
    apply elem_of_cons in H as [->|H]; [done | by apply IH].
Qed.

Lemma own_keys_assoc k ps : k ∈ own_keys ps → is_Some (assoc k ps).
Proof.
  unfold own_keys. intros [H|H]%elem_of_app.
  - apply list_elem_of_fmap in H as ([i k'] & -> & H). by eapply index_keys_assoc.
  - by apply name_keys_assoc.
Qed.

Lemma own_value_assoc kd ps k v :
  wf_object kd ps → assoc k ps = Some v → own_value kd ps k = v.
Proof.
  intros Hwf Hk. destruct kd as [|len]; simpl; [by rewrite Hk|].
  apply assoc_elem in Hk as Hin.
  simpl in Hwf. rewrite Forall_forall in Hwf. destruct (Hwf _ Hin) as [Hlen _].
  simpl in Hlen. rewrite bool_decide_false by done. by rewrite Hk.
Qed.

Lemma has_own_assoc kd ps k v : assoc k ps = Some v → has_own kd ps k = true.
Proof.
  intros Hk. destruct kd; simpl; rewrite Hk.
  - by apply bool_decide_true.
  - rewrite (bool_decide_true (is_Some (Some v))) by done. apply orb_true_r.
Qed.

(** Reading an own property. *)
Lemma Get_own s l kd ps k v :
  st_heap s !! l = Some (Plain kd ps) → wf_object kd ps → assoc k ps = Some v →
  Get l k s = Ok v s.
Proof.
  intros Hl Hwf Hk. rewrite (Get_plain _ _ _ _ _ Hl (readable_own _ _ _ _ Hk)).
  by rewrite (own_value_assoc _ _ _ _ Hwf Hk).
Qed.

(** An own property is enumerated as such when [hasOwnProperty] is
    the method of [Object.prototype]. *)
Lemma hasOwnProperty_own s l kd ps k v :
  st_heap s !! l = Some (Plain kd ps) → unshadowed ps = true → assoc k ps = Some v →
  hasOwnProperty l k s = Ok true s.
Proof.
  intros Hl [Hu _]%unshadowed_spec Hk. unfold hasOwnProperty.
  by rewrite (backing_plain _ _ _ _ Hl), Hu, (has_own_assoc _ _ _ _ Hk).
Qed.

(** A write to an own property, or to a name other than [__proto__],
    is an ordinary write. *)
Lemma set_plain_guard kd ps k v :
  is_Some (assoc k ps) ∨ k ≠ "__proto__" →
  set_plain kd ps k v
  = match kd with
    | Record => Written Record (update k v ps)
    | Array len =>
        if bool_decide (k = "length") then
          match v with
          | VNum z =>
              if ((0 <=? z) && (z <? 2 ^ 32))%Z
              then Written (Array (Z.to_N z)) (filter (λ kv, keeps (Z.to_N z) kv = true) ps)
              else RangeError
          | _ => Unmodelled
          end
        else
          match array_index k with
          | Some i => Written (Array (N.max len (i + 1))) (update k v ps)
          | None => Written (Array len) (update k v ps)
          end
    end.
Proof.
  intros H. unfold set_plain.
  replace (bool_decide (k = "__proto__") && negb (bool_decide (is_Some (assoc k ps))))
    with false; [done|].
  symmetry. destruct H as [H|H].
  - rewrite (bool_decide_true _ H). apply andb_false_r.
  - by rewrite (bool_decide_false _ H).
Qed.

Lemma set_plain_same kd ps k v :
  wf_object kd ps → assoc k ps = Some v → set_plain kd ps k v = Written kd ps.
Proof.
  intros Hwf Hk. rewrite set_plain_guard by (left; by eexists).
  destruct kd as [|len].
  - by rewrite update_same.
  - apply assoc_elem in Hk as Hin.
    simpl in Hwf. rewrite Forall_forall in Hwf. destruct (Hwf _ Hin) as [Hlen Hidx].
    simpl in Hlen, Hidx. rewrite bool_decide_false by done.
    rewrite update_same by done.
    destruct (array_index k) as [i|]; [|done].
    specialize (Hidx i eq_refl). by rewrite N.max_l by lia.
Qed.

Lemma flat_assoc ps k v : flat ps → assoc k ps = Some v → is_object v = None.
Proof.
  intros Hflat Hk%assoc_elem. unfold flat in Hflat. rewrite Forall_forall in Hflat.
  apply (Hflat _ Hk).
Qed.

Lemma flat_own_value kd ps k : flat ps → is_object (own_value kd ps k) = None.
Proof.
  intros Hflat.
  assert (is_object (default VUndef (assoc k ps)) = None) as H.
  { destruct (assoc k ps) as [v|] eqn:Hk; [by eapply flat_assoc | done]. }
  destruct kd; simpl; [done|]. by case_bool_decide.
Qed.

(** The loop of the trap over a flat container: every property is
    written back with the value it already holds, so nothing
    changes and nothing is dispatched. *)
Lemma rewrap_flat self h t o okd ops q pre f keys :
  h !! o = Some (Plain okd ops) →
  h !! q = Some (Proxy o pre) →
  flat ops → wf_object okd ops → unshadowed ops = true →
  (∀ k, k ∈ keys → is_Some (assoc k ops)) →
  (2 ≤ f)%nat →
  for_each keys
    (λ i, b ← hasOwnProperty o i;
          if b : bool then v ← Get o i; assign f self q i v else ret tt)
    (State h t)
  = Ok tt (State h t).
Proof.
  intros Ho Hq Hflat Hwf Hun Hkeys Hf.
  induction keys as [|k r IH]; [done|].
  destruct (Hkeys k) as [v Hk]; [apply list_elem_of_here|].
  cbn [for_each]. unfold bind at 1. unfold bind at 1.
  rewrite (hasOwnProperty_own (State h t) o okd ops k v Ho Hun Hk).
  unfold bind at 1. rewrite (Get_own (State h t) o okd ops k v Ho Hwf Hk).
  rewrite (assign_noncontainer self (State h t) q o pre okd ops k v okd ops f);
    [ | done | done | by eapply readable_own | by eapply flat_assoc
      | by apply set_plain_same | done].
  cbn [st_heap st_trace]. rewrite (list_insert_id _ _ _ Ho).
  rewrite (own_value_assoc _ _ _ _ Hwf Hk), handleChange_refl.
  apply IH. intros k' Hk'. apply Hkeys. by apply list_elem_of_further.
Qed.

(** Assigning a flat container through a wrapper that sits directly
    on a plain object: the container is wrapped, the wrapper is
    committed, [handleChange] runs for the container path, and the
    loop that follows has no effect. *)
Lemma assign_flat_container
    self s p target parentName kd ps name o okd ops kd' ps' fuel :
  st_heap s !! p = Some (Proxy target parentName) →
  st_heap s !! target = Some (Plain kd ps) →
  readable kd ps name = true →
  st_heap s !! o = Some (Plain okd ops) →
  o ≠ target →
  flat ops → wf_object okd ops → unshadowed ops = true →
  set_plain kd ps name (VRef (length (st_heap s))) = Written kd' ps' →
  (3 ≤ fuel)%nat →
  assign fuel self p name (VRef o) s =
    handleChange self (parentName +:+ name) (VRef o) (own_value kd ps name)
      (State (<[target := Plain kd' ps']>
                (st_heap s ++ [Proxy o ((parentName +:+ name) +:+ ".")]))
             (st_trace s)).
Proof.
  intros Hp Ht Hr Ho Hne Hflat Hwf Hun Hset Hfuel.
  destruct fuel as [|[|[|f]]]; [lia | lia | lia |].
  rewrite (assign_proxy _ _ _ _ _ _ _ _ Hp). unfold set.
  unfold bind at 1. rewrite (Get_plain _ _ _ _ _ Ht Hr).
  cbn [is_object]. unfold bind at 1. unfold _hook, _generateHandler.
  unfold bind at 1. unfold alloc, ret at 1.
  unfold bind at 1.
  apply lookup_lt_Some in Ht as Htlt. apply lookup_lt_Some in Ho as Holt.
  rewrite (assign_plain _ _ _ kd ps _ _ kd' ps');
    [| cbn [st_heap]; by rewrite lookup_app_l | done].
  cbn [st_heap st_trace].
  set (h1 := <[target := _]> _).
  unfold bind at 1.
  destruct (handleChange self (parentName +:+ name) (VRef o) (own_value kd ps name)
              (State h1 (st_trace s))) as [[] s2|s2|] eqn:Hhc; [|done|done].
  assert (st_heap s2 = h1) as Hh2.
  { apply (handleChange_final self (parentName +:+ name) (VRef o)
             (own_value kd ps name) (State h1 (st_trace s)) s2).
    by rewrite Hhc. }
  assert (h1 !! o = Some (Plain okd ops)) as Ho1.
  { subst h1. rewrite list_lookup_insert_ne by done. by rewrite lookup_app_l. }
  assert (h1 !! length (st_heap s)
          = Some (Proxy o ((parentName +:+ name) +:+ "."))) as Hq1.
  { subst h1. rewrite list_lookup_insert_ne by lia.
    by rewrite lookup_app_r, Nat.sub_diag by lia. }
  destruct s2 as [h2 t2]. simpl in Hh2. subst h2.
  cbn [is_object]. unfold bind at 1. unfold for_in_keys. cbn [st_heap].
  rewrite (backing_plain _ _ _ _ Ho1).
  eapply rewrap_flat; eauto using own_keys_assoc. lia.
Qed.

Lemma ser_members_flat h stack ops n keys :
  flat ops →
  ∃ m, ser_members
         (map (λ k, (k, stringify n h stack (own_value Record ops k))) keys)
       = Done m.
Proof.
  intros Hflat. induction keys as [|k r [m IH]]; cbn [map ser_members]; [by eexists|].
  rewrite stringify_noncontainer by (by apply flat_own_value).
  destruct (prim_text _); cbn [ser_members]; rewrite IH; by eexists.
Qed.

Lemma ser_elements_flat h stack len ops n (idx : list N) :
  flat ops →
  ∃ m, ser_elements
         (map (λ i, stringify n h stack (own_value (Array len) ops (index_key i))) idx)
       = Done m.
Proof.
  intros Hflat. induction idx as [|i r [m IH]]; cbn [map ser_elements]; [by eexists|].
  rewrite stringify_noncontainer by (by apply flat_own_value).
  rewrite IH; by eexists.
Qed.

(** The text of a container that [JSON.stringify] serializes itself. *)
Lemma stringify_container n h stack l kd ps :
  backing h l = Some (kd, ps) → calls_toJSON ps = false → l ∉ stack →
  stringify (S n) h stack (VRef l)
  = match kd with
    | Record =>
        ser_map (λ m, Some (JObj m))
          (ser_members
             (map (λ k, (k, stringify n h (l :: stack) (own_value Record ps k)))
                  (own_keys ps)))
    | Array len =>
        ser_map (λ m, Some (JArr m))
          (ser_elements
             (map (λ i, stringify n h (l :: stack)
                          (own_value (Array len) ps (index_key i)))
                  (indices len)))
    end.
Proof.
  intros Hb Hj Hs. cbn [stringify]. rewrite Hb, Hj.
  by rewrite bool_decide_false by done.
Qed.

(** A flat container always has a JSON text, and it is the text of
    no non-container value. *)
Lemma stringify_flat_container h o okd ops n :
  h !! o = Some (Plain okd ops) → flat ops → unshadowed ops = true →
  ∃ j, stringify (S n) h [] (VRef o) = Done (Some j)
       ∧ ∀ v, is_object v = None → text_eq (Some j) (prim_text v) = false.
Proof.
  intros Ho Hflat [_ Hj]%unshadowed_spec.
  rewrite (stringify_container n h [] o okd ops (backing_plain _ _ _ _ Ho) Hj)
    by apply not_elem_of_nil.
  destruct okd as [|len].
  - destruct (ser_members_flat h [o] ops n (own_keys ops) Hflat) as [m ->].
    eexists. split; [done|]. by intros [].
  - destruct (ser_elements_flat h [o] len ops n (indices len) Hflat) as [m ->].
    eexists. split; [done|]. by intros [].
Qed.

(** ** Stacked wrappers *)

(** A write of a non-container value through a wrapper whose target
    is itself a wrapper of a plain object: the inner trap commits and
    runs [handleChange] with its prefix, then the outer trap runs
    [handleChange] with its own, on the same pair of values. *)
Lemma assign_two_layers self s p2 p1 t pre2 pre1 kd ps name v kd' ps' fuel :
  st_heap s !! p2 = Some (Proxy p1 pre2) →
  st_heap s !! p1 = Some (Proxy t pre1) →
  st_heap s !! t = Some (Plain kd ps) →
  readable kd ps name = true →
  is_object v = None →
  set_plain kd ps name v = Written kd' ps' →
  (3 ≤ fuel)%nat →
  assign fuel self p2 name v s =
    (handleChange self (pre1 +:+ name) v (own_value kd ps name);;
     handleChange self (pre2 +:+ name) v (own_value kd ps name))
      (State (<[t := Plain kd' ps']> (st_heap s)) (st_trace s)).
Proof.
  intros Hp2 Hp1 Ht Hr Hv Hset Hfuel.
  destruct fuel as [|f]; [lia|].
  rewrite (assign_proxy _ _ _ _ _ _ _ _ Hp2). unfold set.
  unfold bind at 1.
  rewrite (Get_backing _ _ _ _ _ (backing_proxy_plain _ _ _ _ _ _ Hp1 Ht) Hr).
  rewrite Hv. unfold bind at 1. unfold ret at 1.
  unfold bind at 1.
  rewrite (assign_noncontainer _ _ _ _ _ _ _ _ _ _ _ _ Hp1 Ht Hr Hv Hset) by lia.
  unfold bind at 2.
  destruct (handleChange self (pre1 +:+ name) v (own_value kd ps name) _)
    as [[] s1|s1|]; [|done|done].
  apply bind_ret_tt.
Qed.

Lemma dispatches_invokes (fs : list fn) (args : list value) :
  dispatches (map (λ f, Invoke f args) fs) = [].
Proof. by induction fs. Qed.

Lemma emit_callable self path newVal oldVal s :
  callable_listeners self → watchable self path →
  ∃ t', emit self path newVal oldVal s = Ok tt (State (st_heap s) t')
        ∧ dispatches t' = dispatches (st_trace s) ++ [(path, newVal, oldVal)].
Proof.
  intros [Hl Hc] Hw. destruct (Hl path) as [fs Hfs].
  rewrite (emit_functions _ _ _ _ _ _ Hw Hfs). cbv zeta.
  assert (dispatches (st_trace s ++ Emit path newVal oldVal
                        :: map (λ f, Invoke f [newVal; oldVal]) fs)
          = dispatches (st_trace s) ++ [(path, newVal, oldVal)]) as Hd.
  { unfold dispatches. rewrite omap_app. f_equal.
    change ((path, newVal, oldVal)
              :: dispatches (map (λ f, Invoke f [newVal; oldVal]) fs)
            = [(path, newVal, oldVal)]).
    by rewrite dispatches_invokes. }
  destruct Hc as [Hfalsy|[g Hg]].
  - destruct (_callback self); cbn [truthy] in *; try done; rewrite ?Hfalsy;
      eexists; split; done.
  - rewrite Hg. eexists; split; [done|].
    unfold dispatches in *. rewrite omap_app, Hd. cbn [omap]. apply app_nil_r.
Qed.

(** C7, amended.  [_hook] always allocates a new wrapper, also around
    a container that is wrapped already, and every layer intercepts
    on its own: one write of a non-container value that
    [handleChange] takes for changed (not identical to the old value,
    and with a different JSON text), through the wrapper of a
    wrapper, calls [emit] twice, first with the path of the inner
    layer, then with the path of the outer one (the same path when
    the prefixes agree). *)
Theorem rewrapping_stacks_a_second_layer
    self s o p1 pre1 pre2 kd ps name v kd' ps' fuel :
  st_heap s !! p1 = Some (Proxy o pre1) →
  st_heap s !! o = Some (Plain kd ps) →
  readable kd ps name = true →
  is_object v = None →
  is_object (own_value kd ps name) = None →
  same v (prim_text v) (own_value kd ps name) (prim_text (own_value kd ps name)) = false →
  set_plain kd ps name v = Written kd' ps' →
  (3 ≤ fuel)%nat →
  let oldVal := own_value kd ps name in
  let p2 := length (st_heap s) in
  let s' := State (<[o := Plain kd' ps']> (st_heap s ++ [Proxy p1 pre2]))
                  (st_trace s) in
  _hook p1 pre2 s = Ok (VRef p2) (State (st_heap s ++ [Proxy p1 pre2]) (st_trace s))
  ∧ p2 ≠ p1
  ∧ (w ← _hook p1 pre2; w ← ref_loc w; assign fuel self w name v) s
    = (emit self (pre1 +:+ name) v oldVal;; emit self (pre2 +:+ name) v oldVal) s'
  ∧ (callable_listeners self →
     watchable self (pre1 +:+ name) → watchable self (pre2 +:+ name) →
     ∃ sf, (w ← _hook p1 pre2; w ← ref_loc w; assign fuel self w name v) s = Ok tt sf
           ∧ dispatches (st_trace sf)
             = dispatches (st_trace s)
               ++ [(pre1 +:+ name, v, oldVal); (pre2 +:+ name, v, oldVal)]).
Proof.
  intros Hp1 Ho Hr Hv Hold Hne Hset Hfuel. cbv zeta.
  apply lookup_lt_Some in Hp1 as Hp1lt. apply lookup_lt_Some in Ho as Holt.
  assert ((w ← _hook p1 pre2; w ← ref_loc w; assign fuel self w name v) s
          = (emit self (pre1 +:+ name) v (own_value kd ps name);;
             emit self (pre2 +:+ name) v (own_value kd ps name))
              (State (<[o := Plain kd' ps']> (st_heap s ++ [Proxy p1 pre2]))
                     (st_trace s))) as Heq.
  { unfold bind at 1. unfold _hook, _generateHandler. unfold bind at 1.
    unfold alloc, ret at 1. unfold bind at 1. unfold ref_loc, ret at 1.
    rewrite (assign_two_layers self _ (length (st_heap s)) p1 o pre2 pre1 kd ps
               name v kd' ps' fuel); cbn [st_heap st_trace];
      [ | by rewrite lookup_app_r, Nat.sub_diag by lia
        | by rewrite lookup_app_l | by rewrite lookup_app_l
        | done | done | done | done ].
    unfold bind. rewrite handleChange_noncontainer by done. rewrite Hne.
    destruct (emit self (pre1 +:+ name) v (own_value kd ps name) _)
      as [[] s1|s1|]; [|done|done].
    rewrite handleChange_noncontainer by done. by rewrite Hne. }
  split_and!; [done | lia | done |].
  intros Hcall Hw1 Hw2. rewrite Heq. unfold bind.
  destruct (emit_callable self (pre1 +:+ name) v (own_value kd ps name)
              (State (<[o := Plain kd' ps']> (st_heap s ++ [Proxy p1 pre2]))
                     (st_trace s)) Hcall Hw1) as (t1 & E1 & Hd1).
  destruct (emit_callable self (pre2 +:+ name) v (own_value kd ps name)
              (State (<[o := Plain kd' ps']> (st_heap s ++ [Proxy p1 pre2])) t1)
              Hcall Hw2) as (t2 & E2 & Hd2).
  cbn [st_heap st_trace] in *. rewrite E1, E2.
  eexists. split; [done|]. cbn [st_trace]. rewrite Hd2, Hd1.
  by rewrite <- app_assoc.
Qed.

End Interceptor.
(** * What every step of a write keeps *)

Section Invariants.

Implicit Types (self : MutationWatcher) (s : state) (h : heap).
Implicit Types (kd : kind) (ps : props) (k name path prop parentName : string).
Implicit Types (fuel f : nat) (p target q o l : loc).

(** ** Relations kept by every step of a write *)

Section Maintained.

Variable R : state → state → Prop.
Hypothesis R_refl : ∀ s, R s s.
Hypothesis R_trans : ∀ s1 s2 s3, R s1 s2 → R s2 s3 → R s1 s3.
Hypothesis R_alloc : ∀ s ob, R s (State (st_heap s ++ [ob]) (st_trace s)).
Hypothesis R_write : ∀ s l kd ps kd' ps',
  st_heap s !! l = Some (Plain kd ps) →
  R s (State (<[l := Plain kd' ps']> (st_heap s)) (st_trace s)).

Lemma maintains_ret {A} (a : A) : maintains R (ret a).
Proof. intros s sf [= <-]. apply R_refl. Qed.

Lemma maintains_throw {A} : maintains R (@throw A).
Proof. intros s sf [= <-]. apply R_refl. Qed.

Lemma maintains_stuck {A} : maintains R (@stuck A).
Proof. by intros s sf. Qed.

Lemma maintains_bind {A B} (m : M A) (k : A → M B) :
  maintains R m → (∀ a, maintains R (k a)) → maintains R (bind m k).
Proof.
  intros Hm Hk s sf. unfold bind.
  destruct (m s) as [a s1|s1|] eqn:E; [| |done].
  - intros Hf. apply (R_trans s s1).
    + apply Hm. by rewrite E.
    + by apply (Hk a).
  - intros [= <-]. apply Hm. by rewrite E.
Qed.

Lemma maintains_Get l k : maintains R (Get l k).
Proof.
  intros s sf. unfold Get. destruct (backing (st_heap s) l) as [[kd ps]|]; [|done].
  destruct (read kd ps k); [|done]. intros [= <-]. apply R_refl.
Qed.

Lemma maintains_hasOwnProperty l k : maintains R (hasOwnProperty l k).
Proof.
  intros s sf. unfold hasOwnProperty.
  destruct (backing (st_heap s) l) as [[kd ps]|]; [|done].
  destruct (assoc "hasOwnProperty" ps) as [[]|]; try done; intros [= <-]; apply R_refl.
Qed.

Lemma maintains_for_in_keys l : maintains R (for_in_keys l).
Proof.
  intros s sf. unfold for_in_keys.
  destruct (backing (st_heap s) l) as [[kd ps]|]; [|done].
  intros [= <-]. apply R_refl.
Qed.

Lemma maintains_alloc ob : maintains R (alloc ob).
Proof. intros s sf [= <-]. apply R_alloc. Qed.

Lemma maintains_for_each {A} (l : list A) (body : A → M unit) :
  (∀ x, maintains R (body x)) → maintains R (for_each l body).
Proof.
  intros Hb. induction l as [|x r IH]; cbn [for_each].
  - apply maintains_ret.
  - apply maintains_bind; [apply Hb | intros _; apply IH].
Qed.

Lemma maintains_JSON_stringify v : maintains R (JSON_stringify v).
Proof.
  intros s sf. unfold JSON_stringify.
  destruct (stringify _ _ _ _); [| |done]; intros [= <-]; apply R_refl.
Qed.

Lemma maintains_loop (assign_ : loc → string → value → M unit) o p (keys : list string) :
  (∀ l k v, maintains R (assign_ l k v)) →
  maintains R (for_each keys
             (λ i, b ← hasOwnProperty o i;
                   if b : bool then v ← Get o i; assign_ p i v else ret tt)).
Proof.
  intros Ha. apply maintains_for_each. intros i.
  apply maintains_bind; [apply maintains_hasOwnProperty|]. intros [|]; [|apply maintains_ret].
  apply maintains_bind; [apply maintains_Get|]. intros v. apply Ha.
Qed.

Lemma maintains_plain_write s l kd ps name v sf :
  st_heap s !! l = Some (Plain kd ps) →
  final (match set_plain kd ps name v with
         | Written kd' ps' =>
             Ok tt (State (<[l := Plain kd' ps']> (st_heap s)) (st_trace s))
         | RangeError => Throw s
         | Unmodelled => Stuck
         end) = Some sf →
  R s sf.
Proof.
  intros Hl. destruct (set_plain kd ps name v) as [kd' ps'| |]; [| |done].
  - intros [= <-]. by eapply R_write.
  - intros [= <-]. apply R_refl.
Qed.

Hypothesis R_log : ∀ s a, R s (State (st_heap s) (st_trace s ++ [a])).

Lemma maintains_log a : maintains R (log a).
Proof. intros s sf [= <-]. apply R_log. Qed.

Lemma maintains_call v (args : list value) : maintains R (call v args).
Proof. destruct v; try apply maintains_throw. apply maintains_log. Qed.

Lemma maintains_emit self path newVal oldVal : maintains R (emit self path newVal oldVal).
Proof.
  unfold emit. apply maintains_bind; [apply maintains_log|]. intros _.
  apply maintains_bind.
  - destruct (registry_entry self path) as [arr|n| |]; try apply maintains_ret.
    + destruct (negb _); [|apply maintains_ret].
      apply maintains_for_each. intros x. apply maintains_call.
    + destruct (negb _); [apply maintains_throw | apply maintains_ret].
  - intros _. destruct (truthy _); [apply maintains_call | apply maintains_ret].
Qed.

Lemma maintains_handleChange self path newVal oldVal :
  maintains R (handleChange self path newVal oldVal).
Proof.
  unfold handleChange. destruct (strict_eq _ _); [apply maintains_ret|].
  apply maintains_bind; [apply maintains_JSON_stringify|]. intros a.
  apply maintains_bind; [apply maintains_JSON_stringify|]. intros b.
  destruct (text_eq a b); [apply maintains_ret | apply maintains_emit].
Qed.

Lemma maintains_set self parentName assign_ target name newVal :
  (∀ l k v, maintains R (assign_ l k v)) →
  maintains R (set self parentName assign_ target name newVal).
Proof.
  intros Ha. unfold set.
  apply maintains_bind; [apply maintains_Get|]. intros oldVal.
  apply maintains_bind.
  { destruct (is_object newVal); [|apply maintains_ret].
    unfold _hook. apply maintains_bind; [apply maintains_alloc|].
    intros q. apply maintains_ret. }
  intros finalVal.
  apply maintains_bind; [apply Ha|]. intros _.
  apply maintains_bind; [apply maintains_handleChange|]. intros _.
  destruct (is_object newVal) as [o|]; [|apply maintains_ret].
  destruct (is_object finalVal) as [q|]; [|apply maintains_ret].
  apply maintains_bind; [apply maintains_for_in_keys|]. intros keys.
  by apply maintains_loop.
Qed.

Lemma assign_maintains self : ∀ f l k v, maintains R (assign f self l k v).
Proof.
  induction f as [|f IH]; intros l k v; [apply maintains_stuck|].
  intros s sf. cbn [assign].
  destruct (st_heap s !! l) as [[kd ps|target pre]|] eqn:Hl; [| |done].
  - by apply maintains_plain_write.
  - by apply maintains_set.
Qed.

End Maintained.

(** ** The graph and the trace only grow *)

Lemma grows_refl s : grows s s.
Proof. unfold grows. split_and!; eauto. Qed.

Lemma grows_trans s1 s2 s3 : grows s1 s2 → grows s2 s3 → grows s1 s3.
Proof.
  intros (L1 & W1 & P1 & T1) (L2 & W2 & P2 & T2). split_and!.
  - lia.
  - eauto.
  - intros l kd ps Hl. destruct (P1 _ _ _ Hl) as (kd1 & ps1 & Hl1). eauto.
  - by etrans.
Qed.

Lemma grows_alloc s ob : grows s (State (st_heap s ++ [ob]) (st_trace s)).
Proof.
  unfold grows. cbn [st_heap st_trace]. split_and!.
  - rewrite length_app. lia.
  - intros l t pre Hl. rewrite lookup_app_l; [done | by eapply lookup_lt_Some].
  - intros l kd ps Hl. exists kd, ps.
    rewrite lookup_app_l; [done | by eapply lookup_lt_Some].
  - done.
Qed.

Lemma grows_write s l kd ps kd' ps' :
  st_heap s !! l = Some (Plain kd ps) →
  grows s (State (<[l := Plain kd' ps']> (st_heap s)) (st_trace s)).
Proof.
  intros Hl. unfold grows. cbn [st_heap st_trace]. split_and!.
  - by rewrite length_insert.
  - intros l' t pre Hl'. rewrite list_lookup_insert_ne; [done | congruence].
  - intros l' kd0 ps0 Hl'. destruct (decide (l' = l)) as [->|Hne].
    + exists kd', ps'. apply list_lookup_insert_eq. by eapply lookup_lt_Some.
    + exists kd0, ps0. by rewrite list_lookup_insert_ne.
  - done.
Qed.

Lemma grows_log s a : grows s (State (st_heap s) (st_trace s ++ [a])).
Proof.
  unfold grows. cbn [st_heap st_trace]. split_and!; eauto. by apply prefix_app_r.
Qed.

Lemma assign_grows self f l k v : maintains grows (assign f self l k v).
Proof.
  apply assign_maintains;
    eauto using grows_refl, grows_trans, grows_alloc, grows_write, grows_log.
Qed.

End Invariants.


(** * Attaching a tree of plain containers *)

Section Trees.

Implicit Types (self : MutationWatcher) (s : state) (h : heap).
Implicit Types (kd : kind) (ps : props) (k name pre : string).
Implicit Types (fuel f d : nat) (p t q o c l : loc) (fp : gset loc).

Lemma tree_root d h o fp : tree d h o fp → o ∈ fp.
Proof. destruct d; [done|]. intros (kd & ps & F & _ & _ & _ & _ & Ho & _). done. Qed.

Lemma tree_frame d h h' o fp :
  tree d h o fp → (∀ l, l ∈ fp → h' !! l = h !! l) → tree d h' o fp.
Proof.
  revert o fp. induction d as [|d IH]; [done|].
  intros o fp (kd & ps & F & Ho & Hwf & Hun & Hnd & Hin & Hsub & Hdis & Hch) Hsame.
  exists kd, ps, F. split_and!; try done.
  - by rewrite Hsame.
  - intros k c Hk. apply IH; [by eapply Hch|].
    intros l Hl. apply Hsame. by apply (Hsub k).
Qed.

Lemma tree_deeper d d' h o fp : tree d h o fp → (d ≤ d')%nat → tree d' h o fp.
Proof.
  revert d' o fp. induction d as [|d IH]; [done|].
  intros [|d'] o fp Ht Hle; [lia|].
  destruct Ht as (kd & ps & F & Ho & Hwf & Hun & Hnd & Hin & Hsub & Hdis & Hch).
  exists kd, ps, F. split_and!; try done.
  intros k c Hk. apply IH; [by eapply Hch | lia].
Qed.

(** The depth of a tree is at most the number of its cells. *)
Lemma tree_depth d h o fp : tree d h o fp → tree (size fp) h o fp.
Proof.
  revert o fp. induction d as [|d IH]; [done|].
  intros o fp (kd & ps & F & Ho & Hwf & Hun & Hnd & Hin & Hsub & Hdis & Hch).
  assert (size fp = S (size (fp ∖ {[o]}))) as Hsize.
  { rewrite size_difference by (clear -Hin; set_solver). rewrite size_singleton.
    assert (size fp ≠ 0) by (clear -Hin; intros ?%size_empty_inv; set_solver). lia. }
  rewrite Hsize. exists kd, ps, F. split_and!; try done.
  intros k c Hk. apply (tree_deeper (size (F k))); [apply IH; by eapply Hch|].
  apply subseteq_size. destruct (Hsub k) as [H1 H2]. clear -H1 H2. set_solver.
Qed.

Lemma assoc_update_ne k k' v ps : k ≠ k' → assoc k' (update k v ps) = assoc k' ps.
Proof.
  intros Hne. induction ps as [|[k0 v0] r IH]; simpl.
  - by rewrite bool_decide_false.
  - case_bool_decide as H0; simpl.
    + subst k0. by rewrite !bool_decide_false.
    + case_bool_decide; [done | exact IH].
Qed.

Lemma assoc_update k v ps : assoc k (update k v ps) = Some v.
Proof.
  induction ps as [|[k0 v0] r IH]; cbn [update assoc].
  - by rewrite bool_decide_true.
  - case_bool_decide as E; cbn [assoc]; [by rewrite bool_decide_true|].
    by rewrite bool_decide_false.
Qed.

Lemma wf_update kd ps k v :
  wf_object kd ps → is_Some (assoc k ps) → wf_object kd (update k v ps).
Proof.
  destruct kd as [|len]; [done|]. unfold wf_object.
  induction ps as [|[k0 v0] r IH]; cbn [assoc update]; [by intros _ [? ?]|].
  intros [H0 Hr]%Forall_cons Hk.
  case_bool_decide as E.
  - subst k0. by constructor.
  - constructor; [done|]. by apply IH.
Qed.

Lemma set_plain_existing kd ps k v v' :
  wf_object kd ps → assoc k ps = Some v' →
  set_plain kd ps k v = Written kd (update k v ps).
Proof.
  intros Hwf Hk. rewrite set_plain_guard by (left; by eexists).
  destruct kd as [|len]; [done|].
  apply assoc_elem in Hk as Hin.
  simpl in Hwf. rewrite Forall_forall in Hwf. destruct (Hwf _ Hin) as [Hlen Hidx].
  simpl in Hlen, Hidx. rewrite bool_decide_false by done.
  destruct (array_index k) as [i|]; [|done].
  specialize (Hidx i eq_refl). by rewrite N.max_l by lia.
Qed.

Lemma unshadowed_update ps k v c :
  unshadowed ps = true → assoc k ps = Some v →
  unshadowed (update k (VRef c) ps) = true.
Proof.
  intros [Hh Hj]%unshadowed_spec Hk. unfold unshadowed.
  assert (k ≠ "hasOwnProperty") as Hne by (intros ->; congruence).
  rewrite assoc_update_ne, Hh by done. rewrite bool_decide_true by done.
  unfold calls_toJSON in *. destruct (decide (k = "toJSON")) as [->|Hn].
  - by rewrite assoc_update.
  - rewrite assoc_update_ne by done. by rewrite Hj.
Qed.

Lemma ser_members_all_done (g : string → ser (option json)) (keys : list string) :
  (∀ k, ∃ r, g k = Done r) → ∃ m, ser_members (map (λ k, (k, g k)) keys) = Done m.
Proof.
  intros Hg. induction keys as [|k r [m IH]]; cbn [map ser_members]; [by eexists|].
  destruct (Hg k) as [[j|] ->]; cbn [ser_members]; rewrite IH; by eexists.
Qed.

Lemma ser_elements_all_done (g : N → ser (option json)) (idx : list N) :
  (∀ i, ∃ r, g i = Done r) → ∃ m, ser_elements (map g idx) = Done m.
Proof.
  intros Hg. induction idx as [|i r [m IH]]; cbn [map ser_elements]; [by eexists|].
  destruct (Hg i) as [o ->]. rewrite IH; by eexists.
Qed.

Lemma own_value_ref kd ps k c :
  own_value kd ps k = VRef c → assoc k ps = Some (VRef c).
Proof.
  destruct kd as [|len]; simpl.
  - destruct (assoc k ps); simpl; congruence.
  - case_bool_decide; [done|]. destruct (assoc k ps); simpl; congruence.
Qed.

(** A tree of plain containers has a JSON text, whatever enclosing
    objects are on the stack, as long as they are outside the tree. *)
Lemma stringify_tree d :
  ∀ n h o fp (stack : list loc),
    tree d h o fp → (d ≤ n)%nat → (∀ l, l ∈ stack → l ∉ fp) →
    ∃ j, stringify n h stack (VRef o) = Done (Some j)
         ∧ ∀ v, is_object v = None → text_eq (Some j) (prim_text v) = false.
Proof.
  induction d as [|d IH]; [done|].
  intros n h o fp stack (kd & ps & F & Ho & Hwf & Hun & Hnd & Hin & Hsub & Hdis & Hch)
    Hn Hstack.
  destruct n as [|n]; [lia|].
  apply unshadowed_spec in Hun as [_ Hj].
  rewrite (stringify_container n h stack o kd ps (backing_plain _ _ _ _ Ho) Hj)
    by (intros Hs; by apply Hstack in Hs).
  assert (∀ k, ∃ r, stringify n h (o :: stack) (own_value kd ps k) = Done r) as Hkey.
  { intros k. destruct (is_object (own_value kd ps k)) as [c|] eqn:Hv.
    - destruct (own_value kd ps k) eqn:Hg; try done. injection Hv as ->.
      apply own_value_ref in Hg. destruct (Hsub k) as [Hk1 Hk2].
      destruct (IH n h c (F k) (o :: stack)) as (j & -> & _);
        [by eapply Hch | lia | | by eexists].
      intros l [->|Hl]%elem_of_cons; [done|].
      intros Hf. by apply Hk1, (Hstack l) in Hf.
    - rewrite stringify_noncontainer by done. by eexists. }
  destruct kd as [|len].
  - destruct (ser_members_all_done
                (λ k, stringify n h (o :: stack) (own_value Record ps k))
                (own_keys ps) Hkey) as [m ->].
    eexists. split; [done|]. by intros [].
  - destruct (ser_elements_all_done
                (λ i, stringify n h (o :: stack) (own_value (Array len) ps (index_key i)))
                (indices len)) as [m ->].
    { intros i. apply Hkey. }
    eexists. split; [done|]. by intros [].
Qed.

Lemma footprint_size fp (n : nat) : (∀ l, l ∈ fp → (l < n)%nat) → (size fp ≤ n)%nat.
Proof.
  intros Hv. rewrite <- (size_set_seq (C:=gset nat) 0 n).
  apply subseteq_size. intros l Hl. apply elem_of_set_seq. apply Hv in Hl. lia.
Qed.

Lemma insert_index_mono (x : N * string) i k (l : list (N * string)) :
  x ∈ l → x ∈ insert_index i k l.
Proof.
  induction l as [|[j k'] r IH]; cbn [insert_index]; [by intros ?%elem_of_nil|].
  destruct (i <? j)%N.
  - intros H. by apply list_elem_of_further.
  - intros [->|H]%elem_of_cons; [apply list_elem_of_here|].
    apply list_elem_of_further. by apply IH.
Qed.

Lemma insert_index_here i k (l : list (N * string)) : (i, k) ∈ insert_index i k l.
Proof.
  induction l as [|[j k'] r IH]; cbn [insert_index]; [apply list_elem_of_here|].
  destruct (i <? j)%N; [apply list_elem_of_here | by apply list_elem_of_further].
Qed.

Lemma assoc_own_keys k ps : is_Some (assoc k ps) → k ∈ own_keys ps.
Proof.
  unfold own_keys. induction ps as [|[k' v'] r IH]; cbn [assoc index_keys name_keys].
  - by intros [? ?].
  - case_bool_decide as Hk.
    + subst k'. intros _. destruct (array_index k) as [i|] eqn:E.
      * apply elem_of_app. left. apply list_elem_of_fmap. exists (i, k).
        split; [done | apply insert_index_here].
      * apply elem_of_app. right. apply list_elem_of_here.
    + intros H. apply IH in H. apply elem_of_app in H as [H|H].
      * apply list_elem_of_fmap in H as ([j k0] & -> & H).
        apply elem_of_app. left. apply list_elem_of_fmap. exists (j, k0).
        split; [done|]. destruct (array_index k'); [by apply insert_index_mono | done].
      * apply elem_of_app. right.
        destruct (array_index k'); [done | by apply list_elem_of_further].
Qed.

Lemma update_keys k v v' ps :
  assoc k ps = Some v → map fst (update k v' ps) = map fst ps.
Proof.
  induction ps as [|[k0 v0] r IH]; cbn [assoc update]; [done|].
  case_bool_decide as E.
  - subst k0. done.
  - intros H. cbn [map fst]. by rewrite IH.
Qed.

Lemma wrapped_base d : ∀ h0 h0' h q o pre fp,
  wrapped d h0 h q o pre fp → (∀ l, l ∈ fp → h0' !! l = h0 !! l) →
  wrapped d h0' h q o pre fp.
Proof.
  induction d as [|d IH]; [done|].
  intros h0 h0' h q o pre fp (Hq & kd & ps0 & ps & F & H0 & Ho & Hin & Hsub & Hkeys & Hch)
    Hsame.
  split; [done|]. exists kd, ps0, ps, F. split_and!; try done.
  - by rewrite Hsame.
  - intros k. specialize (Hch k).
    destruct (assoc k ps0) as [[ | |b0|z0| |n0|s0|g0|c]|]; try done.
    destruct Hch as (q' & Hk & Hw). exists q'. split; [done|].
    apply (IH h0); [done|]. intros l Hl. apply Hsame. by apply (Hsub k).
Qed.

Lemma wrapped_frame d : ∀ h0 h h' q o pre fp,
  wrapped d h0 h q o pre fp →
  (∀ l t pre', h !! l = Some (Proxy t pre') → h' !! l = Some (Proxy t pre')) →
  (∀ l, l ∈ fp → h' !! l = h !! l) →
  wrapped d h0 h' q o pre fp.
Proof.
  induction d as [|d IH]; [done|].
  intros h0 h h' q o pre fp (Hq & kd & ps0 & ps & F & H0 & Ho & Hin & Hsub & Hkeys & Hch)
    Hprox Hsame.
  split; [by apply Hprox|]. exists kd, ps0, ps, F. split_and!; try done.
  - by rewrite Hsame.
  - intros k. specialize (Hch k).
    destruct (assoc k ps0) as [[ | |b0|z0| |n0|s0|g0|c]|]; try done.
    destruct Hch as (q' & Hk & Hw). exists q'. split; [done|].
    apply (IH h0 h); [done | done |]. intros l Hl. apply Hsame. by apply (Hsub k).
Qed.

Lemma loop_keeps_wrappers self f o q (keys : list string) h h' (t t' : list action) :
  for_each keys
    (λ i, b ← hasOwnProperty o i;
          if b : bool then v ← Get o i; assign f self q i v else ret tt)
    (State h t) = Ok tt (State h' t') →
  ∀ l tg pre, h !! l = Some (Proxy tg pre) → h' !! l = Some (Proxy tg pre).
Proof.
  intros Hrun.
  destruct (maintains_loop grows grows_refl grows_trans (assign f self) o q keys
              (assign_grows self f) (State h t) (State h' t'))
    as (_ & Hprox & _); [by rewrite Hrun|].
  exact Hprox.
Qed.

(** The loop over some keys of [o], given that the loop over every
    sub-tree of depth [d] wraps it (the hypothesis [IH]): the
    containers under these keys are replaced by their wrappers, and
    are wrapped themselves. *)
Lemma rewrap_keys_wrapped self d f1 (t : list action) o kd q pre fp
    (F : string → gset loc) h0 ps0 :
  (∀ h c fpc q' pre',
     tree d h c fpc → (∀ l, l ∈ fpc → (l < length h)%nat) →
     h !! q' = Some (Proxy c pre') → q' ∉ fpc →
     ∃ h', reassign (assign f1 self) c q' (State h t) = Ok tt (State h' t)
           ∧ (length h ≤ length h')%nat
           ∧ (∀ l, l ∉ fpc → (l < length h)%nat → h' !! l = h !! l)
           ∧ wrapped d h h' q' c pre' fpc) →
  o ∈ fp → q ∉ fp →
  (∀ k, F k ⊆ fp ∧ o ∉ F k) → (∀ k k', k ≠ k' → F k ## F k') →
  (1 ≤ f1)%nat →
  (∀ k c, assoc k ps0 = Some (VRef c) → tree d h0 c (F k)) →
  (∀ l, l ∈ fp → (l < length h0)%nat) →
  ∀ ks h ps,
    NoDup ks →
    h !! o = Some (Plain kd ps) → wf_object kd ps → unshadowed ps = true →
    h !! q = Some (Proxy o pre) →
    (length h0 ≤ length h)%nat →
    (∀ k, k ∈ ks → is_Some (assoc k ps0) ∧ assoc k ps = assoc k ps0
                   ∧ ∀ l, l ∈ F k → h !! l = h0 !! l) →
    ∃ h' ps',
      for_each ks
        (λ i, b ← hasOwnProperty o i;
              if b : bool then v ← Get o i; assign (S f1) self q i v else ret tt)
        (State h t)
      = Ok tt (State h' t)
      ∧ (length h ≤ length h')%nat
      ∧ h' !! o = Some (Plain kd ps')
      ∧ map fst ps' = map fst ps
      ∧ (∀ l, l ≠ o → (∀ k, k ∈ ks → l ∉ F k) → (l < length h)%nat →
              h' !! l = h !! l)
      ∧ (∀ k, k ∉ ks → assoc k ps' = assoc k ps)
      ∧ (∀ k, k ∈ ks →
              match assoc k ps0 with
              | Some (VRef c) =>
                  ∃ q', assoc k ps' = Some (VRef q')
                        ∧ wrapped d h0 h' q' c ((pre +:+ k) +:+ ".") (F k)
              | r => assoc k ps' = r
              end).
Proof.
  intros IH Hofp Hqfp Hsub Hdis Hf1 Htrees Hvalid0.
  induction ks as [|k ks IHks]; intros h ps Hnd Ho Hwf Hun Hq Hlen0 Hks.
  { exists h, ps. split_and!; try done. by intros k ?%elem_of_nil. }
  apply NoDup_cons in Hnd as [Hk_notin Hnd].
  destruct (Hks k) as ([v Hk0] & Hkeq & Hfr); [apply list_elem_of_here|].
  assert (assoc k ps = Some v) as Hk by congruence.
  destruct (Hsub k) as [Hsubk HoFk].
  apply lookup_lt_Some in Ho as Holt. apply lookup_lt_Some in Hq as Hqlt.
  assert (o ≠ q) as Hoq by congruence.
  assert (∀ l, l ∈ fp → (l < length h)%nat) as Hvalid.
  { intros l Hl. apply Hvalid0 in Hl. lia. }
  cbn [for_each]. unfold bind at 1. unfold bind at 1.
  rewrite (hasOwnProperty_own (State h t) o kd ps k v Ho Hun Hk).
  unfold bind at 1. rewrite (Get_own (State h t) o kd ps k v Ho Hwf Hk).
  destruct (is_object v) as [c|] eqn:Hv.
  - (* a nested container: it is wrapped and its own loop runs *)
    destruct v; try done. injection Hv as ->.
    assert (tree d h c (F k)) as Htree.
    { apply (tree_frame _ h0); [by apply Htrees | done]. }
    rewrite (assign_proxy f1 self q o pre k (VRef c) (State h t) Hq). unfold set.
    unfold bind at 1. rewrite (Get_own (State h t) o kd ps k (VRef c) Ho Hwf Hk).
    cbn [is_object]. unfold bind at 1. unfold _hook, _generateHandler.
    unfold bind at 1. unfold alloc, ret at 1. cbn [st_heap st_trace].
    unfold bind at 1.
    destruct f1 as [|f2]; [lia|].
    rewrite (assign_plain _ _ _ kd ps _ _ kd (update k (VRef (length h)) ps));
      [ | cbn [st_heap]; by rewrite lookup_app_l
        | by eapply set_plain_existing ].
    cbn [st_heap st_trace].
    unfold bind at 1. rewrite handleChange_refl.
    set (q' := length h).
    set (pre' := (pre +:+ k) +:+ ".").
    set (ps2 := update k (VRef q') ps).
    set (h2 := <[o := Plain kd ps2]> (h ++ [Proxy c pre'])).
    assert (length h2 = S (length h)) as Hlen2.
    { subst h2. rewrite length_insert, length_app. simpl. lia. }
    assert (∀ l, l ≠ o → (l < length h)%nat → h2 !! l = h !! l) as Hh2.
    { intros l Hlo Hl. subst h2. rewrite list_lookup_insert_ne by done.
      by rewrite lookup_app_l. }
    assert (h2 !! q' = Some (Proxy c pre')) as Hq'.
    { subst h2 q'. rewrite list_lookup_insert_ne by lia.
      by rewrite lookup_app_r, Nat.sub_diag by lia. }
    assert (h2 !! o = Some (Plain kd ps2)) as Ho2.
    { subst h2. apply list_lookup_insert_eq. rewrite length_app. lia. }
    assert (∀ l, l ∈ F k → h2 !! l = h0 !! l) as Hfr2.
    { intros l Hl. rewrite Hh2; [by apply Hfr | intros ->; done | by apply Hvalid, Hsubk]. }
    assert (tree d h2 c (F k)) as Htree2.
    { apply (tree_frame _ h0); [by apply Htrees | done]. }
    destruct (IH h2 c (F k) q' pre' Htree2) as (h3 & Hrun & Hlen3 & Hframe3 & Hwr3).
    { intros l Hl. rewrite Hlen2. apply Hsubk, Hvalid in Hl. lia. }
    { done. }
    { intros Hin. apply Hsubk, Hvalid in Hin. subst q'. lia. }
    cbn [is_object].
    change (bind (for_in_keys c) _ (State h2 t))
      with (reassign (assign (S f2) self) c q' (State h2 t)).
    rewrite Hrun.
    assert (h3 !! o = Some (Plain kd ps2)) as Ho3.
    { rewrite Hframe3; [done | done | lia]. }
    assert (h3 !! q = Some (Proxy o pre)) as Hq3.
    { rewrite Hframe3; [| intros Hin; by apply Hsubk in Hin | lia].
      by rewrite Hh2. }
    destruct (IHks h3 ps2 Hnd Ho3) as (h' & ps' & Hrest & Hlen' & Ho' & Hkeys' & Hframe'
                                         & Hout' & Hin').
    { apply wf_update; [done | by eexists]. }
    { subst ps2. by eapply unshadowed_update. }
    { done. }
    { lia. }
    { intros k2 Hk2. assert (k ≠ k2) as Hne by (intros ->; done).
      destruct (Hks k2) as (Hs2 & He2 & Hfr2'); [by apply list_elem_of_further|].
      split_and!; [done | subst ps2; by rewrite assoc_update_ne |].
      intros l Hl. destruct (Hsub k2) as [Hsubk2 HoFk2].
      rewrite Hframe3.
      - rewrite Hh2; [by apply Hfr2' | intros ->; done | by apply Hvalid, Hsubk2].
      - specialize (Hdis k k2 Hne). clear -Hdis Hl. set_solver.
      - rewrite Hlen2. apply Hsubk2, Hvalid in Hl. lia. }
    exists h', ps'. split_and!.
    + exact Hrest.
    + lia.
    + exact Ho'.
    + rewrite Hkeys'. subst ps2. by eapply update_keys.
    + intros l Hlo Hl Hlt. rewrite Hframe'; [| done | | lia].
      * rewrite Hframe3; [| apply Hl, list_elem_of_here | lia]. by apply Hh2.
      * intros k2 Hk2. apply Hl. by apply list_elem_of_further.
    + intros k2 Hk2. rewrite Hout'.
      * subst ps2. apply assoc_update_ne. intros ->. apply Hk2, list_elem_of_here.
      * intros Hin2. apply Hk2. by apply list_elem_of_further.
    + intros k2 [->|Hk2]%elem_of_cons; [|by apply Hin'].
      rewrite Hk0. exists q'. split.
      * rewrite (Hout' k Hk_notin). subst ps2. apply assoc_update.
      * apply (wrapped_frame d h0 h3).
        -- apply (wrapped_base d h2); [done|]. intros l Hl. symmetry. by apply Hfr2.
        -- by apply (loop_keeps_wrappers self (S (S f2)) o q ks h3 h' t t).
        -- intros l Hl. apply Hframe'.
           ++ intros ->. done.
           ++ intros k2 Hk2 Hl2. assert (k ≠ k2) as Hne by (intros ->; done).
              specialize (Hdis k k2 Hne). clear -Hdis Hl Hl2. set_solver.
           ++ apply Hsubk, Hvalid in Hl. lia.
  - (* a non-container value is written back unchanged *)
    rewrite (assign_noncontainer self (State h t) q o pre kd ps k v kd ps (S f1));
      [ | done | done | by eapply readable_own | done | by apply set_plain_same | lia ].
    cbn [st_heap st_trace]. rewrite (list_insert_id _ _ _ Ho).
    rewrite (own_value_assoc _ _ _ _ Hwf Hk), handleChange_refl.
    destruct (IHks h ps Hnd Ho Hwf Hun Hq Hlen0)
      as (h' & ps' & Hrest & Hlen' & Ho' & Hkeys' & Hframe' & Hout' & Hin').
    { intros k2 Hk2. apply Hks. by apply list_elem_of_further. }
    exists h', ps'. split_and!; try done.
    + intros l Hlo Hl Hlt. apply Hframe'; [done | | done].
      intros k2 Hk2. apply Hl. by apply list_elem_of_further.
    + intros k2 Hk2. apply Hout'. intros Hin2. apply Hk2. by apply list_elem_of_further.
    + intros k2 [->|Hk2]%elem_of_cons; [|by apply Hin'].
      rewrite Hk0. rewrite (Hout' k Hk_notin), Hk. by destruct v.
Qed.

(** The loop of the trap over a tree of plain containers wraps the
    tree at every level, and changes cells of the tree only. *)
Lemma rewrap_tree_wrapped self d :
  ∀ f (t : list action) h o fp q pre,
    tree d h o fp → (∀ l, l ∈ fp → (l < length h)%nat) →
    h !! q = Some (Proxy o pre) → q ∉ fp →
    (2 * d ≤ f)%nat →
    ∃ h', reassign (assign f self) o q (State h t) = Ok tt (State h' t)
          ∧ (length h ≤ length h')%nat
          ∧ (∀ l, l ∉ fp → (l < length h)%nat → h' !! l = h !! l)
          ∧ wrapped d h h' q o pre fp.
Proof.
  induction d as [|d IH]; [done|].
  intros f t h o fp q pre (kd & ps & F & Ho & Hwf & Hun & Hnd & Hin & Hsub & Hdis & Hch)
    Hvalid Hq Hqfp Hf.
  destruct f as [|f1]; [lia|].
  unfold reassign. unfold bind at 1. unfold for_in_keys. cbn [st_heap].
  rewrite (backing_plain _ _ _ _ Ho).
  assert (∀ h0 c fpc q' pre',
            tree d h0 c fpc → (∀ l, l ∈ fpc → (l < length h0)%nat) →
            h0 !! q' = Some (Proxy c pre') → q' ∉ fpc →
            ∃ h', reassign (assign f1 self) c q' (State h0 t) = Ok tt (State h' t)
                  ∧ (length h0 ≤ length h')%nat
                  ∧ (∀ l, l ∉ fpc → (l < length h0)%nat → h' !! l = h0 !! l)
                  ∧ wrapped d h0 h' q' c pre' fpc) as IH'.
  { intros h0 c fpc q' pre' Ht Hv Hq' Hn. apply (IH f1 t h0 c fpc q' pre'); try done. lia. }
  assert (1 ≤ f1)%nat as Hf1 by lia.
  destruct (rewrap_keys_wrapped self d f1 t o kd q pre fp F h ps IH' Hin Hqfp Hsub Hdis
              Hf1 Hch Hvalid (own_keys ps) h ps Hnd Ho Hwf Hun Hq)
    as (h' & ps' & Hrun & Hlen & Ho' & Hkeys & Hframe & Hout & Hdone).
  { done. }
  { intros k Hk. split_and!; [by apply own_keys_assoc | done | done]. }
  apply lookup_lt_Some in Hq as Hqlt.
  exists h'. split_and!; [exact Hrun | exact Hlen | |].
  - intros l Hl Hlt. apply Hframe; [intros ->; done | | done].
    intros k _ Hk. by apply (Hsub k) in Hk.
  - split.
    + rewrite Hframe; [done | congruence | | done].
      intros k _ Hk. by apply (Hsub k) in Hk.
    + exists kd, ps, ps', F. split_and!; try done; [intros k; apply Hsub|].
      intros k. destruct (decide (k ∈ own_keys ps)) as [Hk|Hk]; [by apply Hdone|].
      rewrite (Hout k Hk).
      destruct (assoc k ps) as [v|] eqn:E; [|done].
      destruct Hk. apply assoc_own_keys. by eexists.
Qed.


(** A write of a container through a wrapper that sits directly on a
    plain object: the container is wrapped, the wrapper is committed,
    [handleChange] runs and then the loop over the container. *)
Lemma assign_container_run self s p target parentName kd ps name o kd' ps' f :
  st_heap s !! p = Some (Proxy target parentName) →
  st_heap s !! target = Some (Plain kd ps) →
  readable kd ps name = true →
  set_plain kd ps name (VRef (length (st_heap s))) = Written kd' ps' →
  assign (S (S f)) self p name (VRef o) s
  = (handleChange self (parentName +:+ name) (VRef o) (own_value kd ps name);;
     reassign (assign (S f) self) o (length (st_heap s)))
      (State (<[target := Plain kd' ps']>
                (st_heap s ++ [Proxy o ((parentName +:+ name) +:+ ".")]))
             (st_trace s)).
Proof.
  intros Hp Ht Hr Hset. destruct s as [h t0]. cbn [st_heap st_trace] in *.
  rewrite (assign_proxy (S f) self p target parentName name (VRef o) (State h t0) Hp).
  unfold set.
  unfold bind at 1. rewrite (Get_plain (State h t0) _ _ _ _ Ht Hr).
  cbn [is_object]. unfold bind at 1. unfold _hook, _generateHandler.
  unfold bind at 1. unfold alloc, ret at 1. cbn [st_heap st_trace].
  unfold bind at 1.
  apply lookup_lt_Some in Ht as Htlt.
  rewrite (assign_plain _ _ _ kd ps _ _ kd' ps');
    [| cbn [st_heap]; by rewrite lookup_app_l | done].
  done.
Qed.

(** Attaching a tree of plain containers: the state in which
    [handleChange] runs, the text of the container in it, and the
    loop that follows, which wraps the tree at every level and
    leaves the trace alone. *)
Lemma attach_tree_run self s p target parentName kd ps name o d fp kd' ps' fuel :
  st_heap s !! p = Some (Proxy target parentName) →
  st_heap s !! target = Some (Plain kd ps) →
  readable kd ps name = true →
  tree d (st_heap s) o fp →
  (∀ l, l ∈ fp → (l < length (st_heap s))%nat) →
  target ∉ fp →
  set_plain kd ps name (VRef (length (st_heap s))) = Written kd' ps' →
  (2 * d + 1 ≤ fuel)%nat →
  let path := parentName +:+ name in
  let q := length (st_heap s) in
  let h1 := <[target := Plain kd' ps']> (st_heap s ++ [Proxy o (path +:+ ".")]) in
  (∃ j, stringify (S (length h1)) h1 [] (VRef o) = Done (Some j)
        ∧ ∀ v, is_object v = None → text_eq (Some j) (prim_text v) = false)
  ∧ assign fuel self p name (VRef o) s
    = (handleChange self path (VRef o) (own_value kd ps name);;
       reassign (assign (pred fuel) self) o q) (State h1 (st_trace s))
  ∧ ∀ t1 : list action,
      ∃ h', reassign (assign (pred fuel) self) o q (State h1 t1) = Ok tt (State h' t1)
            ∧ h' !! p = Some (Proxy target parentName)
            ∧ h' !! target = Some (Plain kd' ps')
            ∧ wrapped d (st_heap s) h' q o (path +:+ ".") fp.
Proof.
  intros Hp Ht Hr Htree Hvalid Htfp Hset Hfuel. cbv zeta.
  destruct d as [|d0]; [done|]. set (d := S d0) in *.
  destruct fuel as [|[|f]]; [lia | lia |]. cbn [pred].
  destruct s as [h t0]. cbn [st_heap st_trace] in *.
  set (path := parentName +:+ name).
  set (q := length h).
  set (h1 := <[target := Plain kd' ps']> (h ++ [Proxy o (path +:+ ".")])).
  apply lookup_lt_Some in Ht as Htlt. apply lookup_lt_Some in Hp as Hplt.
  assert (p ≠ target) as Hpt by congruence.
  assert (length h1 = S (length h)) as Hlen1.
  { subst h1. rewrite length_insert, length_app. simpl. lia. }
  assert (∀ l, l ∈ fp → h1 !! l = h !! l) as Hsame.
  { intros l Hl. subst h1. rewrite list_lookup_insert_ne by (intros ->; done).
    apply lookup_app_l. by apply Hvalid. }
  assert (tree d h1 o fp) as Htree1 by (by apply (tree_frame _ h)).
  assert (h1 !! q = Some (Proxy o (path +:+ "."))) as Hq1.
  { subst h1 q. rewrite list_lookup_insert_ne by lia.
    by rewrite lookup_app_r, Nat.sub_diag by lia. }
  assert (h1 !! p = Some (Proxy target parentName)) as Hp1.
  { subst h1. rewrite list_lookup_insert_ne by done. by rewrite lookup_app_l. }
  assert (h1 !! target = Some (Plain kd' ps')) as Ht1.
  { subst h1. apply list_lookup_insert_eq. rewrite length_app. lia. }
  assert (q ∉ fp) as Hqfp.
  { intros Hin. apply Hvalid in Hin. subst q. lia. }
  split_and!.
  - apply (stringify_tree (size fp) (S (length h1)) h1 o fp []).
    + by apply (tree_depth d).
    + pose proof (footprint_size fp (length h) Hvalid). lia.
    + by intros l ?%elem_of_nil.
  - apply (assign_container_run self (State h t0) p target parentName kd ps name o
             kd' ps' f Hp Ht Hr Hset).
  - intros t1.
    destruct (rewrap_tree_wrapped self d (S f) t1 h1 o fp q (path +:+ ".") Htree1)
      as (h' & Hloop & Hlen' & Hframe & Hwr); [ | done | done | lia | ].
    { intros l Hl. apply Hvalid in Hl. lia. }
    exists h'. split_and!; [exact Hloop | | |].
    + unfold reassign, bind, for_in_keys in Hloop. cbn [st_heap] in Hloop.
      destruct (backing h1 o) as [[okd ops]|]; [|done].
      by apply (loop_keeps_wrappers self (S f) o q (own_keys ops) h1 h' t1 t1).
    + rewrite Hframe; [done | done | lia].
    + apply (wrapped_base d h1); [done|]. intros l Hl. by rewrite Hsame.
Qed.

(** C2, amended.  Assigning a pre-built container (a tree of unwrapped
    containers, such as [{name: "Ann", age: 3}], none of which
    redefines [hasOwnProperty] or has a [toJSON] function) through a
    wrapper that sits directly on an unwrapped container, under a
    name the container does not inherit, wraps and commits the
    container and runs [handleChange] once, for the container path.
    The re-assignment of the own properties goes through the
    intercepted write path, at every level of the tree: when it is
    over every nested container is stored in its parent as a wrapper
    with the dotted path down to it as the prefix.  But it writes
    back the values the properties already hold: it returns, never
    throws and dispatches nothing.  So the write dispatches at most
    once, for the container path, and exactly once when the old value
    is not a container (such as [undefined] on an empty root). *)
Theorem attach_tree_dispatches_container_only
    self s p target parentName kd ps name o d fp kd' ps' fuel :
  st_heap s !! p = Some (Proxy target parentName) →
  st_heap s !! target = Some (Plain kd ps) →
  readable kd ps name = true →
  tree d (st_heap s) o fp →
  (∀ l, l ∈ fp → (l < length (st_heap s))%nat) →
  target ∉ fp →
  set_plain kd ps name (VRef (length (st_heap s))) = Written kd' ps' →
  (2 * d + 1 ≤ fuel)%nat →
  let path := parentName +:+ name in
  let oldVal := own_value kd ps name in
  let q := length (st_heap s) in
  let s1 := State (<[target := Plain kd' ps']>
                     (st_heap s ++ [Proxy o (path +:+ ".")]))
                  (st_trace s) in
  (∀ s2, handleChange self path (VRef o) oldVal s1 = Ok tt s2 →
     ∃ h', assign fuel self p name (VRef o) s = Ok tt (State h' (st_trace s2))
           ∧ h' !! target = Some (Plain kd' ps')
           ∧ wrapped d (st_heap s) h' q o (path +:+ ".") fp)
  ∧ (∀ s2, handleChange self path (VRef o) oldVal s1 = Throw s2 →
       assign fuel self p name (VRef o) s = Throw s2)
  ∧ (∀ sf, final (assign fuel self p name (VRef o) s) = Some sf →
       dispatches (st_trace sf) = dispatches (st_trace s)
       ∨ dispatches (st_trace sf)
         = dispatches (st_trace s) ++ [(path, VRef o, oldVal)])
  ∧ (is_object oldVal = None →
     ∃ sf, final (assign fuel self p name (VRef o) s) = Some sf
           ∧ dispatches (st_trace sf)
             = dispatches (st_trace s) ++ [(path, VRef o, oldVal)]).
Proof.
  intros Hp Ht Hr Htree Hvalid Htfp Hset Hfuel. cbv zeta.
  destruct (attach_tree_run self s p target parentName kd ps name o d fp kd' ps' fuel
              Hp Ht Hr Htree Hvalid Htfp Hset Hfuel) as ((j & Hj & Hne_text) & Hrun & Hloop).
  set (path := parentName +:+ name) in *.
  set (oldVal := own_value kd ps name) in *.
  set (h1 := <[target := Plain kd' ps']> (st_heap s ++ [Proxy o (path +:+ ".")])) in *.
  assert (∀ s2, handleChange self path (VRef o) oldVal (State h1 (st_trace s)) = Ok tt s2 →
                ∃ h', assign fuel self p name (VRef o) s = Ok tt (State h' (st_trace s2))
                      ∧ h' !! target = Some (Plain kd' ps')
                      ∧ wrapped d (st_heap s) h' (length (st_heap s)) o (path +:+ ".") fp)
    as Hok.
  { intros [h2 t2] Hhc. rewrite Hrun. unfold bind. rewrite Hhc.
    assert (h2 = h1) as ->.
    { apply (handleChange_final self path (VRef o) oldVal (State h1 (st_trace s))
               (State h2 t2)). by rewrite Hhc. }
    destruct (Hloop t2) as (h' & Hl & _ & Ht' & Hw). by exists h'. }
  assert (∀ s2, handleChange self path (VRef o) oldVal (State h1 (st_trace s)) = Throw s2 →
                assign fuel self p name (VRef o) s = Throw s2) as Hthrow.
  { intros s2 Hhc. rewrite Hrun. unfold bind. by rewrite Hhc. }
  split_and!; [exact Hok | exact Hthrow | |].
  - intros sf Hf.
    destruct (handleChange self path (VRef o) oldVal (State h1 (st_trace s)))
      as [[] s2|s2|] eqn:Hhc.
    + destruct (Hok s2 eq_refl) as (h' & Ha & _). rewrite Ha in Hf. injection Hf as <-.
      apply (handleChange_final self path (VRef o) oldVal (State h1 (st_trace s)) s2).
      by rewrite Hhc.
    + rewrite (Hthrow s2 eq_refl) in Hf. injection Hf as <-.
      apply (handleChange_final self path (VRef o) oldVal (State h1 (st_trace s)) s2).
      by rewrite Hhc.
    + rewrite Hrun in Hf. unfold bind in Hf. by rewrite Hhc in Hf.
  - intros Hold.
    assert (handleChange self path (VRef o) oldVal (State h1 (st_trace s))
            = emit self path (VRef o) oldVal (State h1 (st_trace s))) as Hhc.
    { rewrite (handleChange_texts self path (VRef o) oldVal (State h1 (st_trace s))
                 (Some j) (prim_text oldVal) Hj) by (by apply stringify_noncontainer).
      unfold same. rewrite strict_eq_ne by (intros E; rewrite <- E in Hold; done).
      by rewrite Hne_text. }
    destruct (emit_final self path (VRef o) oldVal (State h1 (st_trace s)))
      as (se & Hfe & _ & Hde).
    destruct (emit self path (VRef o) oldVal (State h1 (st_trace s)))
      as [[] s2|s2|] eqn:Hemit; [| |done].
    + destruct (Hok s2) as (h' & Ha & _); [by rewrite Hhc|].
      rewrite Ha. eexists. split; [done|]. cbn in Hfe. injection Hfe as <-. exact Hde.
    + rewrite (Hthrow s2) by (by rewrite Hhc).
      eexists. split; [done|]. cbn in Hfe. injection Hfe as <-. exact Hde.
Qed.


End Trees.
(** * Further properties: chains of wrappers *)

Section Layers.

Implicit Types (self : MutationWatcher) (s : state) (h : heap).
Implicit Types (kd : kind) (ps : props) (k name pre parentName : string).
Implicit Types (fuel f n : nat) (p target q o l t : loc) (pres : list string).

Lemma backing_aux_layers h p pres t kd ps :
  layers h p pres t → h !! t = Some (Plain kd ps) →
  ∀ n, (p < n)%nat → backing_aux n h p = Some (kd, ps).
Proof.
  intros Hl Ht. induction Hl as [t|p q pre pres t Hp Hlt Hl IH]; intros n Hn.
  - destruct n as [|n]; [lia|]. cbn [backing_aux]. by rewrite Ht.
  - destruct n as [|n]; [lia|]. cbn [backing_aux]. rewrite Hp.
    apply IH; [done | lia].
Qed.

Lemma backing_layers h p pres t kd ps :
  layers h p pres t → h !! t = Some (Plain kd ps) → backing h p = Some (kd, ps).
Proof.
  intros Hl Ht. apply (backing_aux_layers h p pres t); [done | done |].
  destruct Hl as [t|p q pre pres t Hp _ _]; by eapply lookup_lt_Some.
Qed.

Lemma for_each_snoc {A} (l : list A) (x : A) (body : A → M unit) s :
  for_each (l ++ [x]) body s = (for_each l body ;; body x) s.
Proof.
  revert s. induction l as [|y r IH]; intros s; cbn [app for_each].
  - unfold bind, ret. by destruct (body x s) as [[] ?| |].
  - unfold bind. destruct (body y s) as [[] s1|s1|]; [|done|done].
    by rewrite IH.
Qed.

(** A write of a non-container value through a chain of wrappers: the
    value is committed to the plain object at the end of the chain,
    then [handleChange] runs once per wrapper, innermost first, each
    time on the same pair of values. *)
Lemma assign_layers self h p pres t kd ps name v kd' ps' :
  layers h p pres t → h !! t = Some (Plain kd ps) →
  readable kd ps name = true →
  is_object v = None →
  set_plain kd ps name v = Written kd' ps' →
  ∀ fuel (tr : list action), (length pres < fuel)%nat →
    assign fuel self p name v (State h tr)
    = for_each (reverse pres)
        (λ pre, handleChange self (pre +:+ name) v (own_value kd ps name))
        (State (<[t := Plain kd' ps']> h) tr).
Proof.
  intros Hl Ht Hr Hv Hset.
  induction Hl as [t|p q pre pres t Hp Hlt Hl IH]; intros fuel tr Hfuel.
  - destruct fuel as [|f]; [cbn in Hfuel; lia|].
    by rewrite (assign_plain f self t kd ps name v kd' ps' (State h tr) Ht Hset).
  - destruct fuel as [|f]; [lia|]. cbn [length] in Hfuel.
    rewrite (assign_proxy f self p q pre name v (State h tr) Hp). unfold set.
    unfold bind at 1.
    rewrite (Get_backing (State h tr) q kd ps name
               (backing_layers h q pres t kd ps Hl Ht) Hr).
    rewrite Hv. unfold bind at 1. unfold ret at 1.
    unfold bind at 1. rewrite (IH Ht f tr) by lia.
    rewrite reverse_cons. rewrite for_each_snoc. unfold bind at 2.
    destruct (for_each (reverse pres) _ _) as [[] s1|s1|]; [|done|done].
    apply bind_ret_tt.
Qed.


Lemma for_each_handleChange_changed self name v old h (pres : list string) :
  is_object v = None → is_object old = None →
  same v (prim_text v) old (prim_text old) = false →
  callable_listeners self →
  (∀ pre, pre ∈ pres → watchable self (pre +:+ name)) →
  ∀ tr : list action,
    ∃ tr', for_each pres (λ pre, handleChange self (pre +:+ name) v old) (State h tr)
           = Ok tt (State h tr')
           ∧ dispatches tr' = dispatches tr ++ map (λ pre, (pre +:+ name, v, old)) pres.
Proof.
  intros Hv Hold Hne Hcall.
  induction pres as [|pre r IH]; intros Hw tr; cbn [for_each map].
  - exists tr. by rewrite app_nil_r.
  - unfold bind. rewrite handleChange_noncontainer by done. rewrite Hne.
    destruct (emit_callable self (pre +:+ name) v old (State h tr) Hcall)
      as (t1 & -> & Hd1); [apply Hw; by left|]. cbn [st_heap st_trace] in *.
    destruct (IH (λ x Hx, Hw x (list_elem_of_further _ _ _ Hx)) t1) as (t2 & -> & Hd2).
    exists t2. split; [done|]. rewrite Hd2, Hd1. by rewrite <- app_assoc.
Qed.

(** X14.  Every wrapper on the way to a container intercepts on its
    own: a write of a non-container value through a chain of [n]
    wrappers, under a name the container does not inherit, over a
    non-container value that is not identical to it and has another
    JSON text, commits the value once and, the listeners being
    functions and no path of the write naming a member of the
    prototype of the registry, dispatches [n] times, once with the
    prefix of each wrapper, innermost first. *)
Theorem write_through_layers_dispatches_per_layer
    self s p pres t kd ps name v kd' ps' fuel :
  layers (st_heap s) p pres t →
  st_heap s !! t = Some (Plain kd ps) →
  readable kd ps name = true →
  is_object v = None →
  is_object (own_value kd ps name) = None →
  same v (prim_text v) (own_value kd ps name) (prim_text (own_value kd ps name)) = false →
  set_plain kd ps name v = Written kd' ps' →
  callable_listeners self →
  (∀ pre, pre ∈ pres → watchable self (pre +:+ name)) →
  (length pres < fuel)%nat →
  ∃ tr, assign fuel self p name v s
        = Ok tt (State (<[t := Plain kd' ps']> (st_heap s)) tr)
        ∧ dispatches tr
          = dispatches (st_trace s)
            ++ map (λ pre, (pre +:+ name, v, own_value kd ps name)) (reverse pres).
Proof.
  intros Hl Ht Hr Hv Hold Hne Hset Hcall Hw Hfuel. destruct s as [h tr0].
  cbn [st_heap st_trace] in *.
  rewrite (assign_layers self h p pres t kd ps name v kd' ps' Hl Ht) by done.
  apply for_each_handleChange_changed; try done.
  intros pre Hpre. apply Hw. by apply elem_of_reverse.
Qed.

End Layers.

(** * Paths *)

Section Paths.

Implicit Types (self : MutationWatcher) (s : state).
Implicit Types (kd : kind) (ps : props) (k name pre : string).
Implicit Types (fuel : nat) (p t q o : loc).

Lemma append_assoc (a b c : string) : (a +:+ b) +:+ c = a +:+ (b +:+ c).
Proof.
  induction a as [|x a IH]; [done|].
  change (String x ((a +:+ b) +:+ c) = String x (a +:+ (b +:+ c))).
  by rewrite IH.
Qed.


Lemma path_of_cons k (r : list string) :
  r ≠ [] → path_of (k :: r) = k +:+ "." +:+ path_of r.
Proof. by destruct r. Qed.


Lemma chain_paths_path_of (names : list string) pre :
  chain_paths pre names
  = map (λ i, pre +:+ path_of (take (S i) names)) (seq 0 (length names)).
Proof.
  revert pre. induction names as [|x r IH]; intros pre; [done|].
  cbn [chain_paths length seq map]. f_equal.
  rewrite IH. rewrite <- seq_shift, map_map. apply map_ext_in.
  intros i Hi%in_seq. destruct r as [|y r']; [simpl in Hi; lia|].
  change (take (S (S i)) (x :: y :: r')) with (x :: take (S i) (y :: r')).
  rewrite path_of_cons by done. by rewrite !append_assoc.
Qed.

Lemma dotted_append (a b : string) : dotted ((a +:+ ".") +:+ b) = true.
Proof.
  induction a as [|x a IH]; [done|].
  change (bool_decide (x = "."%char) || dotted ((a +:+ ".") +:+ b) = true).
  rewrite IH. apply orb_true_r.
Qed.

Lemma inherited_undotted k : inherited k = true → dotted k = false.
Proof.
  unfold inherited. intros [H|H]%orb_true_iff.
  - apply bool_decide_eq_true in H. by subst k.
  - apply bool_decide_eq_true in H. unfold Object_prototype in H. simpl in H.
    repeat match type of H with
           | context [bool_decide (?a = k)] =>
               destruct (decide (a = k)) as [<-|Hne];
               [done | rewrite (bool_decide_false _ Hne) in H; clear Hne]
           end.
    by destruct H.
Qed.

Lemma inherited_dotted (a b : string) : inherited ((a +:+ ".") +:+ b) = false.
Proof.
  destruct (inherited ((a +:+ ".") +:+ b)) eqn:E; [|done].
  apply inherited_undotted in E. by rewrite dotted_append in E.
Qed.

Lemma readable_empty_record k : readable Record [] k = negb (inherited k).
Proof. done. Qed.




Lemma same_defined v :
  primitive v = true → v ≠ VUndef → same v (prim_text v) VUndef (prim_text VUndef) = false.
Proof. intros Hv Hd. by destruct v. Qed.

(** The state [new MutationWatcher(callback)] leaves: the root
    object and its wrapper, whose prefix is empty. *)
Lemma MutationWatcher_new_root callback s0 :
  MutationWatcher_new callback s0
  = Ok (Watcher (length (st_heap s0)) callback ∅, VRef (S (length (st_heap s0))))
       (State ((st_heap s0 ++ [Plain Record []])
                 ++ [Proxy (length (st_heap s0)) ""])
              (st_trace s0)).
Proof.
  destruct s0 as [h0 t0].
  unfold MutationWatcher_new, bind, alloc, _hook, ret, _generateHandler, bind, alloc, ret.
  cbn [st_heap st_trace obj]. rewrite length_app. cbn [length].
  by rewrite Nat.add_1_r.
Qed.





End Paths.

(** * Scenarios *)

Section Scenarios.

(** C4.  The value of [new MutationWatcher()] is the wrapper of the
    empty root, not the instance: [watch] and [obj] are not properties
    of it, and [w.watch("count", cb)] is a call of [undefined]. *)
Theorem watch_unreachable_on_constructed_value (cb : value) :
  run (wr ← MutationWatcher_new VUndef; method_lookup wr.2 "watch")
    = Ok VUndef (State [Plain Record []; Proxy 0 ""] [])
  ∧ run (wr ← MutationWatcher_new VUndef; method_lookup wr.2 "obj")
    = Ok VUndef (State [Plain Record []; Proxy 0 ""] [])
  ∧ run (call_watch_on_new cb) = Throw (State [Plain Record []; Proxy 0 ""] []).
Proof. by split_and!. Qed.

(** The scenario of the specification holds on the instance [this]:
    the listener is called with [(1, undefined)], not called for the
    repeated [1], and called with [(2, 1)]. *)
Lemma count_scenario_trace (cb : fn) :
  run (count_scenario cb)
  = Ok [Emit "count" (VNum 1) VUndef; Invoke cb [VNum 1; VUndef];
        Emit "count" (VNum 2) (VNum 1); Invoke cb [VNum 2; VNum 1]]
       (State [Plain Record [("count", VNum 2)]; Proxy 0 ""]
              [Emit "count" (VNum 1) VUndef; Invoke cb [VNum 1; VUndef];
               Emit "count" (VNum 2) (VNum 1); Invoke cb [VNum 2; VNum 1]]).
Proof. reflexivity. Qed.


(** C2, counterexample.  [root.user = {name: "Ann", age: 3}] on an
    empty root dispatches for ["user"] only: there is no event for
    ["user.name"] and none for ["user.age"]. *)
Lemma bulk_attach_dispatches_container_only :
  ∃ s t, run bulk_attach = Ok t s
         ∧ t = [Emit "user" (VRef 2) VUndef]
         ∧ (∀ n o, (Emit "user.name" n o ∉ t) ∧ (Emit "user.age" n o ∉ t)).
Proof.
  do 2 eexists. split_and!; [reflexivity | reflexivity |].
  intros n o. split; intros H%list_elem_of_singleton; discriminate H.
Qed.

(** The attached container is wrapped: a later write below it is
    intercepted and dispatched under the extended path. *)
Lemma attach_then_write_trace :
  ∃ s, run attach_then_write
       = Ok [Emit "user" (VRef 2) VUndef;
             Emit "user.name" (VStr "Bob") (VStr "Ann")] s.
Proof. eexists. reflexivity. Qed.

(** A nested sub-graph behaves alike: one dispatch, for the container
    path; the inner container is wrapped under the prefix ["a.b."]. *)
Lemma nested_attach_trace :
  run nested_attach
  = Ok [Emit "a" (VRef 3) VUndef]
       (State [Plain Record [("a", VRef 4)]; Proxy 0 "";
               Plain Record [("c", VNum 1)];
               Plain Record [("b", VRef 5); ("n", VStr "x")];
               Proxy 3 "a."; Proxy 2 "a.b."]
              [Emit "a" (VRef 3) VUndef]).
Proof. reflexivity. Qed.

(** The two examples of the specification for paths. *)
Lemma path_examples_trace :
  ∃ s, run path_examples
       = Ok [Emit "a" (VRef 2) VUndef; Emit "a.b" (VNum 5) VUndef;
             Emit "items" (VRef 4) VUndef; Emit "items.0" (VStr "x") VUndef] s.
Proof. eexists. reflexivity. Qed.

(** C7, counterexample.  After the sub-graph that is already
    intercepted has been assigned again, a single write of [x]
    dispatches ["a.x"] twice; and one write through a container
    wrapped twice does not behave as through one wrapped once. *)
Lemma reassigned_subgraph_dispatches_twice :
  (∃ s, run reassign_wrapped
        = Ok [Emit "a" (VRef 2) VUndef;
              Emit "a.x" (VNum 1) VUndef; Emit "a.x" (VNum 1) VUndef] s)
  ∧ (∃ s, run (write_through_layers 1) = Ok [Emit "a.x" (VNum 1) VUndef] s)
  ∧ (∃ s, run (write_through_layers 2)
          = Ok [Emit "a.x" (VNum 1) VUndef; Emit "a.x" (VNum 1) VUndef] s).
Proof. split_and!; eexists; reflexivity. Qed.

(** C8.  Replacing a function by another function is not reported:
    neither has a JSON text, so the texts compare equal. *)
Theorem function_replacement_not_dispatched
    (self : MutationWatcher) (path : string) (f g : fn) (s : state) :
  handleChange self path (VFun g) (VFun f) s = Ok tt s.
Proof.
  rewrite handleChange_noncontainer by done.
  unfold same. cbn [prim_text text_eq]. by rewrite orb_true_r.
Qed.

(** On a watcher: the first assignment of a function and its
    replacement by a different one leave the trace empty. *)
Lemma replace_function_trace :
  run (replace_function 1 2)
  = Ok [] (State [Plain Record [("f", VFun 2)]; Proxy 0 ""] []).
Proof. reflexivity. Qed.

(** The comparison of non-container values never throws. *)
Lemma handleChange_noncontainer_returns
    (self : MutationWatcher) (path : string) (a b : value) (s : state) :
  is_object a = None → is_object b = None →
  callable_listeners self → watchable self path →
  ∃ s', handleChange self path a b s = Ok tt s'.
Proof.
  intros Ha Hb Hcall Hw. rewrite handleChange_noncontainer by done.
  destruct (same _ _ _ _); [by eexists|].
  destruct (emit_callable self path a b s Hcall Hw) as (t' & -> & _). by eexists.
Qed.

(** A circular structure makes [JSON.stringify], and with it the
    write, throw; the value has been committed by then. *)
Lemma attach_cycle_throws :
  run attach_cycle
  = Throw (State [Plain Record [("x", VRef 3)]; Proxy 0 "";
                  Plain Record [("self", VRef 2)]; Proxy 2 "x."] []).
Proof. reflexivity. Qed.

(** C9, counterexample.  The older [change], for a path without
    listeners, on a watcher whose callback is a function: it returns
    and no call has been recorded, the callback has not been invoked. *)
Lemma older_change_skips_global_callback :
  let self := Watcher 0 (VFun 7) ∅ in
  listeners self "count" = []
  ∧ _callback self = VFun 7
  ∧ Part000.change self "count" (VNum 1) VUndef empty_state = Ok tt (State [] [])
  ∧ emit self "count" (VNum 1) VUndef empty_state
    = Ok tt (State [] [Emit "count" (VNum 1) VUndef;
                       Invoke 7 [VStr "count"; VNum 1; VUndef]]).
Proof. by split_and!. Qed.

End Scenarios.

(** * Further properties: registry and dispatcher *)

Section RegistryDispatch.

Implicit Types (self : MutationWatcher) (path : string) (s : state).

Lemma emit_other_key self m p' newVal oldVal s :
  _watch self !! p' = m !! p' →
  emit (Watcher (obj self) (_callback self) m) p' newVal oldVal s
  = emit self p' newVal oldVal s.
Proof.
  intros Hm. unfold emit, registry_entry. cbn [_watch _callback]. by rewrite Hm.
Qed.

Lemma watchable_insert self path arr :
  watchable (Watcher (obj self) (_callback self) (<[path := arr]> (_watch self))) path.
Proof. left. cbn [_watch]. rewrite lookup_insert_eq. by eexists. Qed.

Lemma watch_all_registers self path (cbs : list value) :
  watchable self path →
  ∃ self', watch_all path cbs self = Returns self'
           ∧ obj self' = obj self ∧ _callback self' = _callback self
           ∧ listeners self' path = listeners self path ++ cbs
           ∧ watchable self' path
           ∧ ∀ p', p' ≠ path → _watch self' !! p' = _watch self !! p'.
Proof.
  revert self. induction cbs as [|cb r IH]; intros self Hw.
  - exists self. rewrite app_nil_r. by split_and!.
  - cbn [watch_all]. rewrite (watch_watchable _ _ _ Hw).
    destruct (IH _ (watchable_insert self path (listeners self path ++ [cb])))
      as (self' & -> & Ho & Hc & Hl & Hw' & Hother).
    exists self'. split_and!; [done | done | done | | done |].
    + rewrite Hl, listeners_insert. by rewrite <- app_assoc.
    + intros p' Hp'. rewrite (Hother p' Hp'). cbn [_watch]. by apply lookup_insert_ne.
Qed.

(** X1.  Listeners registered with [watch], one call after the
    other, under a path that does not name a member of the prototype
    of the registry, are called by the next [emit] for that path in
    the order of their registration, after the listeners that were
    there before (a callback registered twice is called twice), each
    with [(newVal, oldVal)], followed by the global callback if there
    is one; [emit] for any other path is what it was. *)
Theorem emit_after_watch self path (gs fs : list fn) newVal oldVal s :
  watchable self path →
  listeners self path = map VFun gs →
  ∃ self', watch_all path (map VFun fs) self = Returns self'
    ∧ emit self' path newVal oldVal s
      = (let t := st_trace s ++ Emit path newVal oldVal
                    :: map (λ g, Invoke g [newVal; oldVal]) (gs ++ fs) in
         match _callback self with
         | VFun g => Ok tt (State (st_heap s) (t ++ [Invoke g [VStr path; newVal; oldVal]]))
         | c => if truthy c then Throw (State (st_heap s) t) else Ok tt (State (st_heap s) t)
         end)
    ∧ ∀ p', p' ≠ path →
        emit self' p' newVal oldVal s = emit self p' newVal oldVal s.
Proof.
  intros Hw Hgs.
  destruct (watch_all_registers self path (map VFun fs) Hw)
    as (self' & Hall & Ho & Hc & Hl & Hw' & Hother).
  exists self'. split_and!; [done | |].
  - rewrite (emit_functions self' path newVal oldVal s (gs ++ fs) Hw').
    + by rewrite Hc.
    + by rewrite Hl, Hgs, map_app.
  - intros p' Hp'. destruct self' as [o' c' m']. cbn [obj _callback _watch] in *.
    subst o' c'. apply emit_other_key. symmetry. by apply Hother.
Qed.

(** X2.  After a successful [unWatch], [emit] for the path calls the
    remaining listeners in their order: the first registration of the
    callback is gone, a second one is still called. *)
Theorem emit_after_unWatch self path f newVal oldVal s f1 f2 :
  listeners self path = map VFun (f1 ++ f :: f2) → f ∉ f1 →
  ∃ self', unWatch path (VFun f) self = Returns (self', true)
    ∧ emit self' path newVal oldVal s
      = (let t := st_trace s ++ Emit path newVal oldVal
                    :: map (λ g, Invoke g [newVal; oldVal]) (f1 ++ f2) in
         match _callback self with
         | VFun g => Ok tt (State (st_heap s) (t ++ [Invoke g [VStr path; newVal; oldVal]]))
         | c => if truthy c then Throw (State (st_heap s) t) else Ok tt (State (st_heap s) t)
         end).
Proof.
  intros Hl Hn.
  assert (_watch self !! path = Some (map VFun f1 ++ VFun f :: map VFun f2)) as Hs.
  { apply listeners_stored; [by rewrite Hl, map_app | by destruct (map VFun f1)]. }
  rewrite (unWatch_found self path (VFun f) (map VFun f1) (map VFun f2) Hs).
  - eexists. split; [done|].
    rewrite (emit_functions _ path newVal oldVal s (f1 ++ f2)); [done | |].
    + apply watchable_insert.
    + rewrite listeners_insert, map_app. done.
  - done.
  - intros (g & [= ->] & Hg)%list_elem_of_fmap. done.
Qed.

(** X3.  An [unWatch] that finds nothing, under a path that does not
    name a member of the prototype of the registry, returns [false]
    and cannot be observed through [emit], for any path: the empty
    list it may have stored under the path is treated like no list.
    [NaN] is never found, being identical to nothing. *)
Theorem failed_unWatch_is_unobservable self path cb :
  watchable self path →
  cb ∉ listeners self path ∨ cb = VNaN →
  ∃ self', unWatch path cb self = Returns (self', false)
    ∧ ∀ p' newVal oldVal s,
        emit self' p' newVal oldVal s = emit self p' newVal oldVal s.
Proof.
  intros Hw Hn.
  assert (unWatch path cb self
          = Returns (Watcher (obj self) (_callback self)
                       (<[path := listeners self path]> (_watch self)), false)) as ->.
  { destruct Hn as [Hn| ->]; [by apply unWatch_absent|].
    unfold unWatch. rewrite (registry_entry_watchable _ _ Hw).
    unfold listeners. destruct (_watch self !! path) as [arr|]; cbn [default];
      by rewrite indexOf_NaN. }
  eexists. split; [done|].
  intros p' newVal oldVal s.
  destruct (decide (p' = path)) as [->|Hne].
  - unfold emit. cbn [_callback].
    rewrite (registry_entry_watchable _ _ Hw).
    rewrite (registry_entry_watchable _ _ (watchable_insert self path _)).
    unfold listeners. cbn [_watch]. rewrite lookup_insert_eq.
    by destruct (_watch self !! path) as [[|x r]|].
  - apply emit_other_key. symmetry. by apply lookup_insert_ne.
Qed.

Lemma for_each_stops (fs : list fn) (v : value) (rest : list value)
    (args : list value) s :
  (∀ g, v ≠ VFun g) →
  for_each (map VFun fs ++ v :: rest) (λ f, call f args) s
  = Throw (State (st_heap s) (st_trace s ++ map (λ f, Invoke f args) fs)).
Proof.
  intros Hv. revert s. induction fs as [|f r IH]; intros [h t]; cbn [map app for_each].
  - unfold bind. destruct v; cbn; try (by rewrite app_nil_r). by destruct (Hv f).
  - unfold bind at 1. cbn [call log st_heap st_trace]. rewrite IH. cbn.
    by rewrite <- app_assoc.
Qed.

(** X4.  A listener entry that is not a function stops the dispatch
    with a TypeError: the listeners registered before it have been
    called, those after it and the global callback are not. *)
Theorem emit_stops_at_non_function self path newVal oldVal s fs v rest :
  listeners self path = map VFun fs ++ v :: rest →
  (∀ g, v ≠ VFun g) →
  emit self path newVal oldVal s
  = Throw (State (st_heap s)
             (st_trace s ++ Emit path newVal oldVal
                :: map (λ f, Invoke f [newVal; oldVal]) fs)).
Proof.
  intros Hl Hv. apply listeners_stored in Hl; [|by destruct (map VFun fs)].
  unfold emit. rewrite (registry_entry_stored _ _ _ Hl).
  unfold bind at 1. unfold log at 1. unfold bind at 1.
  replace (negb (length (map VFun fs ++ v :: rest) =? 0)%nat) with true
    by (rewrite length_app; cbn; by destruct (length (map VFun fs))).
  rewrite for_each_stops by done. cbn. by rewrite <- app_assoc.
Qed.

(** X19.  [unWatch] under a path that does not name a member of the
    prototype of the registry returns; it returns [true] exactly when
    the callback is in the list of the path (and is not [NaN], which
    is never found); it then removes the first occurrence and only
    that one.  Otherwise the list keeps its contents (a missing list
    becomes the empty list).  The lists of the other paths are
    untouched. *)
Theorem unWatch_removes_first_match self path cb :
  watchable self path →
  ∃ self' removed,
    unWatch path cb self = Returns (self', removed)
    ∧ (removed = true ↔ cb ∈ listeners self path ∧ cb ≠ VNaN)
    ∧ (∀ l1 l2, _watch self !! path = Some (l1 ++ cb :: l2) → cb ≠ VNaN → cb ∉ l1 →
         removed = true ∧ _watch self' !! path = Some (l1 ++ l2))
    ∧ (removed = false → _watch self' !! path = Some (listeners self path))
    ∧ (∀ p, p ≠ path → _watch self' !! p = _watch self !! p)
    ∧ obj self' = obj self ∧ _callback self' = _callback self.
Proof.
  intros Hw.
  destruct (decide (cb ∈ listeners self path ∧ cb ≠ VNaN)) as [[Hin Hnan]|Hno].
  - apply list_elem_of_split_l in Hin as (l1 & l2 & Hl & Hn).
    assert (_watch self !! path = Some (l1 ++ cb :: l2)) as Hs
      by (apply listeners_stored; [done | by destruct l1]).
    rewrite (unWatch_found self path cb l1 l2 Hs Hnan Hn).
    do 2 eexists. split; [done|]. cbn [_watch obj _callback]. split_and!; try done.
    + split; [|done]. intros _. split; [|done]. rewrite Hl. set_solver.
    + intros l1' l2' Hs' _ Hn'. split; [done|]. rewrite lookup_insert_eq.
      rewrite Hs in Hs'. injection Hs' as Hs'.
      assert (length l1 = length l1') as Hlen.
      { destruct (Nat.lt_trichotomy (length l1) (length l1')) as [Hlt|[Heq|Hgt]];
          [exfalso | done | exfalso].
        - apply Hn'. apply (f_equal (λ l, l !! length l1)) in Hs'.
          rewrite list_lookup_middle in Hs' by done.
          rewrite lookup_app_l in Hs' by done. symmetry in Hs'.
          by apply list_elem_of_lookup_2 in Hs'.
        - apply Hn. apply (f_equal (λ l, l !! length l1')) in Hs'.
          rewrite (list_lookup_middle l1' l2' cb (length l1')) in Hs' by done.
          rewrite lookup_app_l in Hs' by done.
          by apply list_elem_of_lookup_2 in Hs'. }
      apply app_inj_1 in Hs' as [-> Hs']; [|done]. by injection Hs' as ->.
    + intros p Hp. by apply lookup_insert_ne.
  - assert (unWatch path cb self
            = Returns (Watcher (obj self) (_callback self)
                         (<[path := listeners self path]> (_watch self)), false)) as ->.
    { destruct (decide (cb = VNaN)) as [->|Hnan].
      - unfold unWatch. rewrite (registry_entry_watchable _ _ Hw).
        unfold listeners. destruct (_watch self !! path) as [arr|]; cbn [default];
          by rewrite indexOf_NaN.
      - apply unWatch_absent; [done|]. intros Hin. by apply Hno. }
    do 2 eexists. split; [done|]. cbn [_watch obj _callback]. split_and!; try done.
    + intros l1 l2 Hs Hnan _. exfalso. apply Hno. split; [|done].
      unfold listeners. rewrite Hs. cbn. set_solver.
    + intros _. by rewrite lookup_insert_eq.
    + intros p Hp. by apply lookup_insert_ne.
Qed.

(** X20.  [watch] followed at once by [unWatch] of the same pair,
    under a path that does not name a member of the prototype of the
    registry and for a callback other than [NaN]: both return, the
    second [true]; when the callback was not registered for the path
    before, the listener list of the path has its former contents
    again (a missing list has become the empty list); the lists of
    all other paths are the same throughout. *)
Theorem watch_then_unWatch self path cb :
  watchable self path → cb ≠ VNaN →
  ∃ self1 self2,
    watch path cb self = Returns self1
    ∧ unWatch path cb self1 = Returns (self2, true)
    ∧ _watch self1 !! path = Some (listeners self path ++ [cb])
    ∧ (cb ∉ listeners self path → _watch self2 !! path = Some (listeners self path))
    ∧ (∀ p, p ≠ path →
         _watch self1 !! p = _watch self !! p ∧ _watch self2 !! p = _watch self !! p).
Proof.
  intros Hw Hnan. rewrite (watch_watchable _ _ _ Hw).
  set (self1 := Watcher (obj self) (_callback self)
                  (<[path := listeners self path ++ [cb]]> (_watch self))).
  assert (_watch self1 !! path = Some (listeners self path ++ [cb])) as Hs1
    by (cbn [self1 _watch]; apply lookup_insert_eq).
  destruct (decide (cb ∈ listeners self path)) as [Hin|Hn].
  - apply list_elem_of_split_l in Hin as (l1 & l2 & Hl & Hn1).
    assert (_watch self1 !! path = Some (l1 ++ cb :: (l2 ++ [cb]))) as Hs
      by (rewrite Hs1, Hl, <- app_assoc; done).
    exists self1. eexists. rewrite (unWatch_found self1 path cb l1 (l2 ++ [cb]) Hs Hnan Hn1).
    split_and!; [done | done | done | |].
    + intros Hn. exfalso. apply Hn. rewrite Hl. set_solver.
    + intros p Hp. cbn [self1 _watch]. by rewrite !lookup_insert_ne.
  - exists self1. eexists.
    rewrite (unWatch_found self1 path cb (listeners self path) [] Hs1 Hnan Hn).
    split_and!; [done | done | done | |].
    + intros _. cbn [_watch]. by rewrite lookup_insert_eq, app_nil_r.
    + intros p Hp. cbn [self1 _watch]. by rewrite !lookup_insert_ne.
Qed.

End RegistryDispatch.

(** * Further properties: writes through a wrapper *)

Section Writes.

Implicit Types (self : MutationWatcher) (s : state) (h : heap).
Implicit Types (kd : kind) (ps : props) (k name pre parentName : string).
Implicit Types (fuel f d : nat) (p target q o l : loc) (fp : gset loc).

Lemma set_plain_shape kd ps k v kd' ps' :
  set_plain kd ps k v = Written kd' ps' → k ≠ "length" →
  ps' = update k v ps
  ∧ match kd with Record => kd' = Record | Array _ => ∃ m, kd' = Array m end.
Proof.
  intros Hset Hk. unfold set_plain in Hset.
  destruct (bool_decide (k = "__proto__") && negb (bool_decide (is_Some (assoc k ps))));
    [done|].
  destruct kd as [|len].
  - by injection Hset as <- <-.
  - rewrite bool_decide_false in Hset by done.
    destruct (array_index k); injection Hset as <- <-; (split; [done|]); by eexists.
Qed.

Lemma get_after_set kd ps k v kd' ps' :
  set_plain kd ps k v = Written kd' ps' → k ≠ "length" →
  readable kd' ps' k = true
  ∧ own_value kd' ps' k = v
  ∧ ∀ k', k' ≠ k → k' ≠ "length" →
      own_value kd' ps' k' = own_value kd ps k'
      ∧ (readable kd ps k' = true → readable kd' ps' k' = true).
Proof.
  intros Hset Hk.
  destruct (set_plain_shape _ _ _ _ _ _ Hset Hk) as [-> Hkd].
  split_and!.
  - apply (readable_own _ _ _ v), assoc_update.
  - destruct kd as [|len]; [subst kd' | destruct Hkd as [m ->]]; simpl;
      rewrite ?bool_decide_false by done; by rewrite assoc_update.
  - intros k' Hk' Hl. unfold readable.
    destruct kd as [|len]; [subst kd' | destruct Hkd as [m ->]]; simpl;
      rewrite ?(bool_decide_false (k' = "length")) by done;
      by rewrite assoc_update_ne.
Qed.

(** X5.  Reading after writing: once a non-container value has been
    written through a wrapper under a name the container does not
    inherit (whether or not the dispatch then threw), reading the
    property through the wrapper yields that value, and the other
    properties that were readable read as before. *)
Theorem read_after_write
    self s p target parentName kd ps name newVal kd' ps' fuel sf :
  st_heap s !! p = Some (Proxy target parentName) →
  st_heap s !! target = Some (Plain kd ps) →
  readable kd ps name = true →
  is_object newVal = None →
  set_plain kd ps name newVal = Written kd' ps' →
  name ≠ "length" →
  (2 ≤ fuel)%nat →
  final (assign fuel self p name newVal s) = Some sf →
  Get p name sf = Ok newVal sf
  ∧ ∀ k', k' ≠ name → k' ≠ "length" → readable kd ps k' = true →
      Get p k' sf = Ok (own_value kd ps k') sf.
Proof.
  intros Hp Ht Hr Hv Hset Hname Hfuel Hf.
  rewrite (assign_noncontainer _ _ _ _ _ _ _ _ _ _ _ _ Hp Ht Hr Hv Hset Hfuel) in Hf.
  apply handleChange_final in Hf as [Hh _]. cbn [st_heap] in Hh.
  apply lookup_lt_Some in Ht as Htlt.
  assert (p ≠ target) as Hpt by congruence.
  assert (backing (st_heap sf) p = Some (kd', ps')) as Hb.
  { apply (backing_proxy_plain _ _ target parentName); rewrite Hh.
    - by rewrite list_lookup_insert_ne.
    - by apply list_lookup_insert_eq. }
  destruct (get_after_set _ _ _ _ _ _ Hset Hname) as (Hr' & Hsame & Hother).
  split.
  - rewrite (Get_backing sf p kd' ps' name Hb Hr'). by rewrite Hsame.
  - intros k' Hk' Hl Hrk. destruct (Hother k' Hk' Hl) as [Hv' Hr''].
    rewrite (Get_backing sf p kd' ps' k' Hb (Hr'' Hrk)). by rewrite Hv'.
Qed.

(** X6.  Writing again the non-container value that the backing
    container already holds changes nothing at all: neither the heap
    nor the trace. *)
Theorem rewrite_same_value_is_noop self s p target parentName kd ps name v fuel :
  st_heap s !! p = Some (Proxy target parentName) →
  st_heap s !! target = Some (Plain kd ps) →
  wf_object kd ps →
  assoc name ps = Some v →
  is_object v = None →
  (2 ≤ fuel)%nat →
  assign fuel self p name v s = Ok tt s.
Proof.
  intros Hp Ht Hwf Hk Hv Hfuel.
  rewrite (assign_noncontainer self s p target parentName kd ps name v kd ps fuel)
    by (done || by apply set_plain_same || by apply (readable_own kd ps name v)).
  rewrite (list_insert_id _ _ _ Ht), (own_value_assoc _ _ _ _ Hwf Hk).
  rewrite handleChange_same by (by left).
  by destruct s.
Qed.

Lemma stringify_backing_flat h l kd ps n :
  backing h l = Some (kd, ps) → flat ps → calls_toJSON ps = false →
  ∃ j, stringify (S n) h [] (VRef l) = Done (Some j)
       ∧ ∀ v, is_object v = None → text_eq (prim_text v) (Some j) = false.
Proof.
  intros Hb Hflat Hj.
  rewrite (stringify_container n h [] l kd ps Hb Hj) by apply not_elem_of_nil.
  destruct kd as [|len].
  - destruct (ser_members_flat h [l] ps n (own_keys ps) Hflat) as [m ->].
    eexists. split; [done|]. by intros [].
  - destruct (ser_elements_flat h [l] len ps n (indices len) Hflat) as [m ->].
    eexists. split; [done|]. by intros [].
Qed.

Lemma stringify_same_backing h a b kd ps n :
  backing h a = Some (kd, ps) → backing h b = Some (kd, ps) → flat ps →
  calls_toJSON ps = false →
  stringify (S n) h [] (VRef a) = stringify (S n) h [] (VRef b).
Proof.
  intros Ha Hb Hflat Hj.
  rewrite (stringify_container n h [] a kd ps Ha Hj) by apply not_elem_of_nil.
  rewrite (stringify_container n h [] b kd ps Hb Hj) by apply not_elem_of_nil.
  destruct kd as [|len]; do 2 f_equal; apply map_ext; intros x;
    rewrite !stringify_noncontainer by (by apply flat_own_value); done.
Qed.

(** X7.  Replacing a stored container by an equal copy (the same kind,
    the same non-container properties in the same order, no own
    [hasOwnProperty] and no [toJSON] function) is not a change: the
    copy is wrapped and committed, nothing is dispatched. *)
Theorem equal_copy_is_no_change
    self s p target parentName kd ps name qo oo pre_o o okd ops kd' ps' fuel :
  st_heap s !! p = Some (Proxy target parentName) →
  st_heap s !! target = Some (Plain kd ps) →
  readable kd ps name = true →
  own_value kd ps name = VRef qo →
  st_heap s !! qo = Some (Proxy oo pre_o) →
  st_heap s !! oo = Some (Plain okd ops) →
  st_heap s !! o = Some (Plain okd ops) →
  flat ops → wf_object okd ops → unshadowed ops = true →
  o ≠ target → oo ≠ target →
  set_plain kd ps name (VRef (length (st_heap s))) = Written kd' ps' →
  (3 ≤ fuel)%nat →
  assign fuel self p name (VRef o) s
  = Ok tt (State (<[target := Plain kd' ps']>
                    (st_heap s ++ [Proxy o ((parentName +:+ name) +:+ ".")]))
                 (st_trace s)).
Proof.
  intros Hp Ht Hr Hold Hqo Hoo Ho Hflat Hwf Hun Hne Hne' Hset Hfuel.
  rewrite (assign_flat_container _ _ _ _ _ _ _ _ _ _ _ _ _ _ Hp Ht Hr Ho) by done.
  rewrite Hold. set (h1 := <[target := _]> _).
  apply lookup_lt_Some in Ho as Holt. apply lookup_lt_Some in Hoo as Hoolt.
  apply lookup_lt_Some in Hqo as Hqolt.
  destruct (unshadowed_spec _ Hun) as [_ Hj].
  assert (backing h1 o = Some (okd, ops)) as Hb1.
  { apply backing_plain. subst h1. rewrite list_lookup_insert_ne by done.
    by rewrite lookup_app_l. }
  assert (backing h1 qo = Some (okd, ops)) as Hb2.
  { apply (backing_proxy_plain _ _ oo pre_o); subst h1.
    - rewrite list_lookup_insert_ne by congruence. by rewrite lookup_app_l.
    - rewrite list_lookup_insert_ne by done. by rewrite lookup_app_l. }
  destruct (stringify_backing_flat h1 qo okd ops (length h1) Hb2 Hflat Hj) as (j & Hj2 & _).
  assert (stringify (S (length h1)) h1 [] (VRef o) = Done (Some j)) as Hj1
    by (by rewrite (stringify_same_backing h1 o qo okd ops _ Hb1 Hb2 Hflat Hj)).
  rewrite (handleChange_texts self _ (VRef o) (VRef qo) (State h1 (st_trace s))
             (Some j) (Some j) Hj1 Hj2).
  unfold same. replace (text_eq (Some j) (Some j)) with true;
    [by rewrite orb_true_r|].
  symmetry. by apply text_eq_eq.
Qed.

(** X8.  Writing a primitive value over a stored container (a wrapper
    of a container with non-container properties and no [toJSON]
    function) is always a change: the value is committed without any
    wrapping and [emit] runs once, with the wrapper as the old
    value. *)
Theorem primitive_over_container_dispatches
    self s p target parentName kd ps name qo oo pre_o okd ops v kd' ps' fuel :
  st_heap s !! p = Some (Proxy target parentName) →
  st_heap s !! target = Some (Plain kd ps) →
  readable kd ps name = true →
  own_value kd ps name = VRef qo →
  st_heap s !! qo = Some (Proxy oo pre_o) →
  st_heap s !! oo = Some (Plain okd ops) →
  flat ops → calls_toJSON ops = false → oo ≠ target →
  primitive v = true →
  set_plain kd ps name v = Written kd' ps' →
  (2 ≤ fuel)%nat →
  let s1 := State (<[target := Plain kd' ps']> (st_heap s)) (st_trace s) in
  assign fuel self p name v s = emit self (parentName +:+ name) v (VRef qo) s1
  ∧ ∃ sf, final (assign fuel self p name v s) = Some sf
          ∧ dispatches (st_trace sf)
            = dispatches (st_trace s) ++ [(parentName +:+ name, v, VRef qo)].
Proof.
  intros Hp Ht Hr Hold Hqo Hoo Hflat Hj Hne Hv Hset Hfuel. cbv zeta.
  assert (is_object v = None) as Hv' by (by destruct v).
  rewrite (assign_noncontainer _ _ _ _ _ _ _ _ _ _ _ _ Hp Ht Hr Hv' Hset Hfuel).
  rewrite Hold. set (h1 := <[target := _]> _).
  assert (backing h1 qo = Some (okd, ops)) as Hb.
  { apply (backing_proxy_plain _ _ oo pre_o); subst h1.
    - by rewrite list_lookup_insert_ne by congruence.
    - by rewrite list_lookup_insert_ne by done. }
  destruct (stringify_backing_flat h1 qo okd ops (length h1) Hb Hflat Hj) as (j & Hj2 & Hne2).
  assert (handleChange self (parentName +:+ name) v (VRef qo) (State h1 (st_trace s))
          = emit self (parentName +:+ name) v (VRef qo) (State h1 (st_trace s))) as ->.
  { rewrite (handleChange_texts self _ v (VRef qo) (State h1 (st_trace s))
               (prim_text v) (Some j)) by (done || by apply stringify_noncontainer).
    unfold same. rewrite (Hne2 v Hv'), orb_false_r.
    by rewrite strict_eq_ne by (by destruct v). }
  split; [done|].
  destruct (emit_final self (parentName +:+ name) v (VRef qo) (State h1 (st_trace s)))
    as (sf & Hf & _ & Hd).
  by exists sf.
Qed.

Lemma ser_members_cyclic (l : list (string * ser (option json))) :
  Forall (λ x, (∃ r, x.2 = Done r) ∨ x.2 = Cyclic) l →
  Exists (λ x, x.2 = Cyclic) l →
  ser_members l = Cyclic.
Proof.
  induction l as [|[k x] r IH]; intros Hall Hex; [by apply Exists_nil in Hex|].
  apply Forall_cons in Hall as [Hx Hall]. cbn [snd] in Hx.
  destruct Hx as [[[j|] ->]| ->]; cbn [ser_members]; [| |done].
  - apply Exists_cons in Hex as [Hex|Hex]; [done|]. by rewrite IH.
  - apply Exists_cons in Hex as [Hex|Hex]; [done|]. by apply IH.
Qed.

Lemma stringify_on_stack n h o kd ps (stack : list loc) :
  backing h o = Some (kd, ps) → calls_toJSON ps = false → o ∈ stack →
  stringify n h stack (VRef o) = Cyclic.
Proof.
  intros Hb Hj Hin. destruct n; cbn [stringify]; rewrite Hb, Hj;
    by rewrite bool_decide_true.
Qed.

(** A record that holds itself under one of its keys and has no
    [toJSON] function has no JSON text: [JSON.stringify] throws. *)
Lemma JSON_stringify_self_reference s o ps k :
  st_heap s !! o = Some (Plain Record ps) →
  calls_toJSON ps = false →
  only_self_references o ps →
  k ∈ own_keys ps → assoc k ps = Some (VRef o) →
  JSON_stringify (VRef o) s = Throw s.
Proof.
  intros Ho Hj Hself Hk Hko. unfold JSON_stringify.
  pose proof (backing_plain _ _ _ _ Ho) as Hb.
  rewrite (stringify_container _ _ [] o Record ps Hb Hj) by apply not_elem_of_nil.
  rewrite ser_members_cyclic; [done | |].
  - apply Forall_forall. intros [k' x] (k0 & [= -> ->] & _)%list_elem_of_fmap. cbn [snd].
    unfold own_value.
    destruct (assoc k0 ps) as [v|] eqn:Hv; simpl default.
    2:{ left. rewrite stringify_noncontainer by done. by eexists. }
    apply assoc_elem in Hv. unfold only_self_references in Hself.
    rewrite Forall_forall in Hself. destruct (Hself _ Hv) as [Hn|Hn];
      cbn [snd] in Hn; [|subst v].
    + left. rewrite stringify_noncontainer by done. by eexists.
    + right. apply (stringify_on_stack _ _ _ Record ps); [done | done | by left].
  - apply Exists_exists. exists (k, stringify (length (st_heap s)) (st_heap s) [o]
                                     (own_value Record ps k)).
    split; [apply list_elem_of_fmap; by exists k|]. cbn [snd own_value].
    rewrite Hko. simpl default.
    apply (stringify_on_stack _ _ _ Record ps); [done | done | by left].
Qed.

(** X9.  Assigning a record that holds itself under one of its keys
    (and has no [toJSON] function) throws (the TypeError of
    [JSON.stringify] on a circular structure) after the wrapper has
    been committed: the graph has changed, no listener is told, and
    the properties of the record are not re-assigned. *)
Theorem self_reference_write_throws
    self s p target parentName kd ps name o ops k kd' ps' fuel :
  st_heap s !! p = Some (Proxy target parentName) →
  st_heap s !! target = Some (Plain kd ps) →
  readable kd ps name = true →
  st_heap s !! o = Some (Plain Record ops) →
  calls_toJSON ops = false →
  only_self_references o ops →
  k ∈ own_keys ops → assoc k ops = Some (VRef o) →
  o ≠ target →
  own_value kd ps name ≠ VRef o →
  set_plain kd ps name (VRef (length (st_heap s))) = Written kd' ps' →
  (2 ≤ fuel)%nat →
  assign fuel self p name (VRef o) s
  = Throw (State (<[target := Plain kd' ps']>
                    (st_heap s ++ [Proxy o ((parentName +:+ name) +:+ ".")]))
                 (st_trace s)).
Proof.
  intros Hp Ht Hr Ho Hj Hself Hk Hko Hne Hold Hset Hfuel.
  destruct fuel as [|[|f]]; [lia | lia |].
  rewrite (assign_container_run _ _ _ _ _ _ _ _ _ _ _ _ Hp Ht Hr Hset).
  set (s1 := State _ _).
  apply lookup_lt_Some in Ho as Holt.
  assert (st_heap s1 !! o = Some (Plain Record ops)) as Ho1.
  { subst s1. cbn [st_heap]. rewrite list_lookup_insert_ne by done.
    by rewrite lookup_app_l. }
  unfold bind at 1. unfold handleChange.
  rewrite strict_eq_ne by congruence.
  unfold bind at 1.
  by rewrite (JSON_stringify_self_reference s1 o ops k Ho1 Hj Hself Hk Hko).
Qed.

(** X10.  The catch-all callback: on a watcher constructed with the
    function [g], writing a defined primitive value to a property of
    the empty root, under a name that [Object.prototype] does not
    have, commits it and calls [g] once, with the name of the
    property as the path, the value and [undefined]. *)
Theorem global_callback_sees_root_write (g : fn) name v fuel s :
  inherited name = false →
  primitive v = true → v ≠ VUndef → (2 ≤ fuel)%nat →
  (wr ← MutationWatcher_new (VFun g);
   root ← ref_loc wr.2;
   assign fuel wr.1 root name v) s
  = Ok tt (State (st_heap s ++ [Plain Record [(name, v)];
                                Proxy (length (st_heap s)) ""])
                 (st_trace s ++ [Emit name v VUndef;
                                 Invoke g [VStr name; v; VUndef]])).
Proof.
  intros Hin Hv Hdef Hfuel. unfold bind at 1. rewrite MutationWatcher_new_root.
  cbn [fst snd]. unfold bind at 1. cbn [ref_loc]. unfold ret at 1.
  set (h := st_heap s).
  assert (name ≠ "__proto__") as Hproto by (by intros ->).
  rewrite (assign_noncontainer _ _ (S (length h)) (length h) "" Record [] name v
             Record [(name, v)] fuel); cbn [st_heap st_trace];
    [ | rewrite lookup_app_r by (rewrite length_app; simpl; lia);
        rewrite length_app; cbn [length];
        replace (S (length h) - (length h + 1))%nat with 0%nat by lia; done
      | rewrite lookup_app_l by (rewrite length_app; simpl; lia);
        rewrite lookup_app_r by lia; by rewrite Nat.sub_diag
      | by rewrite readable_empty_record, Hin
      | by destruct v
      | by rewrite set_plain_guard by (by right)
      | done ].
  cbn [own_value assoc default].
  rewrite handleChange_noncontainer by (done || by destruct v).
  rewrite same_defined by done.
  rewrite (emit_functions _ _ _ _ _ [])
    by ((by right) || (unfold listeners; cbn [_watch]; by rewrite lookup_empty)).
  cbn. rewrite <- !app_assoc. cbn. do 2 f_equal.
  rewrite insert_app_r_alt by lia. by rewrite Nat.sub_diag.
Qed.

End Writes.

(** * Further properties: the older variant (src/unnamed/part_000) *)

Section OlderVariant.

Implicit Types (self : MutationWatcher) (s : state) (h : heap).
Implicit Types (kd : kind) (ps : props) (k name prop parentName : string).
Implicit Types (fuel f : nat) (p target q o l : loc).

Lemma change_stage_decides self prop s :
  watchable self prop →
  match registry_entry self prop with
  | Listeners listenerArr =>
      if negb (length listenerArr =? 0)%nat then throw else ret tt
  | Method arity => if negb (arity =? 0)%nat then stuck else ret tt
  | Prototype | Missing => ret tt
  end s = if bool_decide (listeners self prop = []) then Ok tt s else Throw s.
Proof.
  intros Hw. rewrite (registry_entry_watchable _ _ Hw). unfold listeners.
  by destruct (_watch self !! prop) as [[|x r]|].
Qed.

(** When both values have a JSON text, [change] throws exactly when
    a listener is registered for the path. *)
Lemma change_texts self prop newVal oldVal s ta tb :
  watchable self prop →
  stringify (S (length (st_heap s))) (st_heap s) [] newVal = Done ta →
  stringify (S (length (st_heap s))) (st_heap s) [] oldVal = Done tb →
  Part000.change self prop newVal oldVal s
  = if bool_decide (listeners self prop = []) then Ok tt s else Throw s.
Proof.
  intros Hw Ha Hb. unfold Part000.change.
  unfold bind at 1. rewrite (JSON_stringify_done _ _ _ Hb).
  unfold bind at 1. rewrite (JSON_stringify_done _ _ _ Ha).
  by apply change_stage_decides.
Qed.

Lemma change_noncontainer self prop newVal oldVal s :
  watchable self prop →
  is_object newVal = None → is_object oldVal = None →
  Part000.change self prop newVal oldVal s
  = if bool_decide (listeners self prop = []) then Ok tt s else Throw s.
Proof.
  intros Hw Hn Ho.
  apply (change_texts self prop newVal oldVal s (prim_text newVal) (prim_text oldVal));
    [done | |]; by apply stringify_noncontainer.
Qed.

Lemma part000_assign_plain fuel self l kd ps name v kd' ps' s :
  st_heap s !! l = Some (Plain kd ps) →
  set_plain kd ps name v = Written kd' ps' →
  Part000Trap.assign (S fuel) self l name v s
  = Ok tt (State (<[l := Plain kd' ps']> (st_heap s)) (st_trace s)).
Proof. intros Hl Hset. cbn [Part000Trap.assign]. by rewrite Hl, Hset. Qed.

Lemma part000_assign_proxy fuel self p target parentName name v s :
  st_heap s !! p = Some (Proxy target parentName) →
  Part000Trap.assign (S fuel) self p name v s
  = Part000Trap.set self parentName (Part000Trap.assign fuel self) target name v s.
Proof. intros Hp. cbn [Part000Trap.assign]. by rewrite Hp. Qed.

Lemma part000_assign_noncontainer
    self s p target parentName kd ps name newVal kd' ps' fuel :
  st_heap s !! p = Some (Proxy target parentName) →
  st_heap s !! target = Some (Plain kd ps) →
  readable kd ps name = true →
  is_object newVal = None →
  set_plain kd ps name newVal = Written kd' ps' →
  (2 ≤ fuel)%nat →
  Part000Trap.assign fuel self p name newVal s
  = Part000.change self (parentName +:+ name) newVal (own_value kd ps name)
      (State (<[target := Plain kd' ps']> (st_heap s)) (st_trace s)).
Proof.
  intros Hp Ht Hr Hv Hset Hfuel.
  destruct fuel as [|[|f]]; [lia | lia |].
  rewrite (part000_assign_proxy _ _ _ _ _ _ _ _ Hp). unfold Part000Trap.set.
  unfold bind at 1. rewrite (Get_plain _ _ _ _ _ Ht Hr).
  rewrite Hv. unfold bind at 1. unfold ret at 1.
  unfold bind at 1. rewrite (part000_assign_plain _ _ _ _ _ _ _ _ _ _ Ht Hset).
  apply bind_ret_tt.
Qed.

(** X11.  In the older variant a write of a non-container value over a
    non-container value, under a name the container does not inherit
    and a path that names no member of the prototype of the registry,
    is committed, and then throws exactly when a listener is
    registered for its path (the listener array itself is called):
    whether or not the value has changed, and without any listener or
    callback being called. *)
Theorem part000_watched_write_throws
    self s p target parentName kd ps name newVal kd' ps' fuel :
  st_heap s !! p = Some (Proxy target parentName) →
  st_heap s !! target = Some (Plain kd ps) →
  readable kd ps name = true →
  watchable self (parentName +:+ name) →
  is_object newVal = None →
  is_object (own_value kd ps name) = None →
  set_plain kd ps name newVal = Written kd' ps' →
  (2 ≤ fuel)%nat →
  let s1 := State (<[target := Plain kd' ps']> (st_heap s)) (st_trace s) in
  Part000Trap.assign fuel self p name newVal s
  = if bool_decide (listeners self (parentName +:+ name) = [])
    then Ok tt s1 else Throw s1.
Proof.
  intros Hp Ht Hr Hw Hv Hold Hset Hfuel. cbv zeta.
  rewrite (part000_assign_noncontainer _ _ _ _ _ _ _ _ _ _ _ _ Hp Ht Hr Hv Hset Hfuel).
  by apply change_noncontainer.
Qed.

Lemma unwatched_cons self prop (paths : list string) :
  unwatched self (prop :: paths)
  = bool_decide (listeners self prop = []) && unwatched self paths.
Proof. done. Qed.

(** The loop of the older trap over a flat container: every property
    is written back with the value it holds, and [change] is called
    for each of them. *)
Lemma part000_rewrap_flat self h (t : list action) o okd ops q pre f keys :
  h !! o = Some (Plain okd ops) →
  h !! q = Some (Proxy o (pre +:+ ".")) →
  flat ops → wf_object okd ops → unshadowed ops = true →
  (∀ k, k ∈ keys → is_Some (assoc k ops)) →
  (2 ≤ f)%nat →
  for_each keys
    (λ i, b ← hasOwnProperty o i;
          if b : bool then v ← Get o i; Part000Trap.assign f self q i v else ret tt)
    (State h t)
  = if unwatched self (map (λ i, (pre +:+ ".") +:+ i) keys)
    then Ok tt (State h t) else Throw (State h t).
Proof.
  intros Ho Hq Hflat Hwf Hun Hkeys Hf.
  induction keys as [|k r IH]; [done|].
  destruct (Hkeys k) as [v Hk]; [apply list_elem_of_here|].
  cbn [for_each map]. rewrite unwatched_cons.
  unfold bind at 1. unfold bind at 1.
  rewrite (hasOwnProperty_own (State h t) o okd ops k v Ho Hun Hk).
  unfold bind at 1. rewrite (Get_own (State h t) o okd ops k v Ho Hwf Hk).
  rewrite (part000_assign_noncontainer self (State h t) q o (pre +:+ ".") okd ops k v
             okd ops f);
    [ | done | done | by eapply readable_own | by eapply flat_assoc
      | by apply set_plain_same | done].
  cbn [st_heap st_trace]. rewrite (list_insert_id _ _ _ Ho).
  rewrite (own_value_assoc _ _ _ _ Hwf Hk).
  rewrite change_noncontainer
    by ((right; apply inherited_dotted) || by eapply flat_assoc).
  destruct (bool_decide (listeners self ((pre +:+ ".") +:+ k) = [])); [|done].
  cbn [andb]. apply IH. intros k' Hk'. apply Hkeys. by apply list_elem_of_further.
Qed.

(** X12.  In the older variant, attaching a container with
    non-container properties (no own [hasOwnProperty], no [toJSON]
    function) over a non-container value, under a name the container
    of the wrapper does not inherit and a path that names no member
    of the prototype of the registry, wraps and commits it and then
    calls [change] for the container path and for the path of every
    own property: the write returns when none of these paths has a
    listener and throws otherwise, in either case with the wrapper
    committed and without any listener or callback being called. *)
Theorem part000_attach_flat
    self s p target parentName kd ps name o okd ops kd' ps' fuel :
  st_heap s !! p = Some (Proxy target parentName) →
  st_heap s !! target = Some (Plain kd ps) →
  readable kd ps name = true →
  watchable self (parentName +:+ name) →
  is_object (own_value kd ps name) = None →
  st_heap s !! o = Some (Plain okd ops) →
  o ≠ target →
  flat ops → wf_object okd ops → unshadowed ops = true →
  set_plain kd ps name (VRef (length (st_heap s))) = Written kd' ps' →
  (3 ≤ fuel)%nat →
  let path := parentName +:+ name in
  let s1 := State (<[target := Plain kd' ps']>
                     (st_heap s ++ [Proxy o (path +:+ ".")]))
                  (st_trace s) in
  Part000Trap.assign fuel self p name (VRef o) s
  = if unwatched self (path :: child_paths path ops) then Ok tt s1 else Throw s1.
Proof.
  intros Hp Ht Hr Hw Hold Ho Hne Hflat Hwf Hun Hset Hfuel. cbv zeta.
  destruct fuel as [|[|[|f]]]; [lia | lia | lia |].
  destruct s as [h t]. cbn [st_heap st_trace] in *.
  rewrite (part000_assign_proxy _ _ _ _ _ _ _ (State h t) Hp). unfold Part000Trap.set.
  unfold bind at 1. rewrite (Get_plain (State h t) _ _ _ _ Ht Hr).
  cbn [is_object]. unfold bind at 1. unfold _generateHandler.
  unfold bind at 1. unfold alloc, ret at 1. cbn [st_heap st_trace].
  unfold bind at 1.
  apply lookup_lt_Some in Ht as Htlt. apply lookup_lt_Some in Ho as Holt.
  rewrite (part000_assign_plain _ _ _ kd ps _ _ kd' ps');
    [| cbn [st_heap]; by rewrite lookup_app_l | done].
  cbn [st_heap st_trace].
  set (h1 := <[target := _]> _).
  assert (h1 !! o = Some (Plain okd ops)) as Ho1.
  { subst h1. rewrite list_lookup_insert_ne by done. by rewrite lookup_app_l. }
  assert (h1 !! length h
          = Some (Proxy o ((parentName +:+ name) +:+ "."))) as Hq1.
  { subst h1. rewrite list_lookup_insert_ne by lia.
    by rewrite lookup_app_r, Nat.sub_diag by lia. }
  rewrite unwatched_cons.
  destruct (stringify_flat_container h1 o okd ops (length h1) Ho1 Hflat Hun) as (j & Hj & _).
  unfold bind at 1.
  rewrite (change_texts self _ (VRef o) (own_value kd ps name) (State h1 t)
             (Some j) (prim_text (own_value kd ps name)) Hw Hj)
    by (by apply stringify_noncontainer).
  destruct (bool_decide (listeners self (parentName +:+ name) = [])); [|done].
  cbn [andb is_object]. unfold bind at 1. unfold for_in_keys. cbn [st_heap].
  rewrite (backing_plain _ _ _ _ Ho1).
  unfold child_paths.
  apply (part000_rewrap_flat self h1 t o okd ops (length h) (parentName +:+ name) (S (S f))
           (own_keys ops)); try done; [intros k0; apply own_keys_assoc | lia].
Qed.

(** The constructor of the older variant wraps the object it is given
    under the empty prefix. *)
Lemma part000_new_spec (o : loc) (callback : value) s :
  Part000Trap.MutationWatcher_new o callback s
  = Ok (Watcher o callback ∅, VRef (length (st_heap s)))
       (State (st_heap s ++ [Proxy o ""]) (st_trace s)).
Proof. done. Qed.

(** X13.  The older constructor watches the object it is given, in
    place: a write of a non-container value (over a non-container
    value, under a name that neither the object nor the registry
    inherits) through the constructed value is committed to that very
    object and returns; the callback given to the constructor is not
    called. *)
Theorem part000_constructed_value_writes_through
    (o : loc) (callback : value) s kd ps name v kd' ps' fuel :
  st_heap s !! o = Some (Plain kd ps) →
  readable kd ps name = true →
  inherited name = false →
  is_object v = None →
  is_object (own_value kd ps name) = None →
  set_plain kd ps name v = Written kd' ps' →
  (2 ≤ fuel)%nat →
  (wr ← Part000Trap.MutationWatcher_new o callback;
   root ← ref_loc wr.2;
   Part000Trap.assign fuel wr.1 root name v) s
  = Ok tt (State (<[o := Plain kd' ps']> (st_heap s) ++ [Proxy o ""]) (st_trace s)).
Proof.
  intros Ho Hr Hin Hv Hold Hset Hfuel. apply lookup_lt_Some in Ho as Holt.
  unfold bind at 1. rewrite part000_new_spec.
  cbn [fst snd]. unfold bind at 1. cbn [ref_loc]. unfold ret at 1.
  rewrite (part000_assign_noncontainer _ _ (length (st_heap s)) o "" kd ps name v
             kd' ps' fuel); cbn [st_heap st_trace];
    [ | by rewrite lookup_app_r, Nat.sub_diag by lia
      | by rewrite lookup_app_l | done | done | done | done ].
  rewrite change_noncontainer by (done || by right).
  rewrite bool_decide_true by (unfold listeners; cbn [_watch]; by rewrite lookup_empty).
  by rewrite insert_app_l.
Qed.

End OlderVariant.

(** * Further properties: a failed dispatch *)

Section FailedDispatch.

Implicit Types (self : MutationWatcher) (s : state) (h : heap).
Implicit Types (kd : kind) (ps : props) (k name pre parentName : string).
Implicit Types (fuel f d : nat) (p target q o l : loc) (fp : gset loc).

(** X18.  When the dispatch for the container path throws, the
    attached tree is left unwrapped: the write throws with the wrapper
    of the container committed, but the loop over its properties has
    not run, so a nested container is still read, through that
    wrapper, as the plain container it was. *)
Theorem failed_dispatch_leaves_tree_unwrapped
    self s p target parentName kd ps name o d fp kd' ps' fuel s2 :
  st_heap s !! p = Some (Proxy target parentName) →
  st_heap s !! target = Some (Plain kd ps) →
  readable kd ps name = true →
  tree d (st_heap s) o fp →
  (∀ l, l ∈ fp → (l < length (st_heap s))%nat) →
  target ∉ fp →
  is_object (own_value kd ps name) = None →
  set_plain kd ps name (VRef (length (st_heap s))) = Written kd' ps' →
  name ≠ "length" →
  (2 * d + 1 ≤ fuel)%nat →
  let path := parentName +:+ name in
  let q := length (st_heap s) in
  emit self path (VRef o) (own_value kd ps name)
    (State (<[target := Plain kd' ps']> (st_heap s ++ [Proxy o (path +:+ ".")]))
           (st_trace s)) = Throw s2 →
  assign fuel self p name (VRef o) s = Throw s2
  ∧ Get p name s2 = Ok (VRef q) s2
  ∧ st_heap s2 !! q = Some (Proxy o (path +:+ "."))
  ∧ ∀ k c, Get o k s = Ok (VRef c) s →
      Get q k s2 = Ok (VRef c) s2
      ∧ ∃ ckd cps, st_heap s2 !! c = Some (Plain ckd cps).
Proof.
  intros Hp Ht Hr Htree Hvalid Htfp Hold Hset Hname Hfuel. cbv zeta. intros Hemit.
  destruct (attach_tree_run self s p target parentName kd ps name o d fp kd' ps' fuel
              Hp Ht Hr Htree Hvalid Htfp Hset Hfuel) as ((j & Hj & Hne_text) & Hrun & _).
  rewrite Hrun.
  destruct s as [h t0]. cbn [st_heap st_trace] in *.
  set (path := parentName +:+ name) in *.
  set (q := length h) in *.
  set (h1 := <[target := Plain kd' ps']> (h ++ [Proxy o (path +:+ ".")])) in *.
  apply lookup_lt_Some in Ht as Htlt. apply lookup_lt_Some in Hp as Hplt.
  assert (p ≠ target) as Hpt by congruence.
  assert (∀ l, l ∈ fp → h1 !! l = h !! l) as Hsame.
  { intros l Hl. subst h1. rewrite list_lookup_insert_ne by (intros ->; done).
    apply lookup_app_l. by apply Hvalid. }
  assert (h1 !! q = Some (Proxy o (path +:+ "."))) as Hq1.
  { subst h1 q. rewrite list_lookup_insert_ne by lia.
    by rewrite lookup_app_r, Nat.sub_diag by lia. }
  assert (h1 !! p = Some (Proxy target parentName)) as Hp1.
  { subst h1. rewrite list_lookup_insert_ne by done. by rewrite lookup_app_l. }
  assert (h1 !! target = Some (Plain kd' ps')) as Ht1.
  { subst h1. apply list_lookup_insert_eq. rewrite length_app. lia. }
  assert (handleChange self path (VRef o) (own_value kd ps name) (State h1 t0)
          = Throw s2) as Hhc.
  { rewrite (handleChange_texts self path (VRef o) (own_value kd ps name) (State h1 t0)
               (Some j) (prim_text (own_value kd ps name)) Hj)
      by (by apply stringify_noncontainer).
    unfold same. rewrite strict_eq_ne by (intros E; rewrite <- E in Hold; done).
    by rewrite Hne_text. }
  assert (st_heap s2 = h1) as Hh2.
  { destruct (emit_final self path (VRef o) (own_value kd ps name) (State h1 t0))
      as (sf & Hf & Hh & _).
    rewrite Hemit in Hf. by injection Hf as <-. }
  unfold bind at 1. rewrite Hhc. split_and!; [done | | by rewrite Hh2 |].
  - destruct (get_after_set _ _ _ _ _ _ Hset Hname) as (Hr' & Hv' & _).
    rewrite (Get_backing s2 p kd' ps' name); [by rewrite Hv' | | done].
    rewrite Hh2. by apply (backing_proxy_plain _ _ _ _ _ _ Hp1 Ht1).
  - intros k c Hget. destruct d as [|d']; [done|].
    destruct Htree as (okd & ops & F & Ho & Hwf & Hun & Hnd & Hin & Hsub & Hdis & Hch).
    unfold Get in Hget. cbn [st_heap] in Hget.
    rewrite (backing_plain _ _ _ _ Ho) in Hget.
    destruct (read okd ops k) as [v|] eqn:Hread; [|done]. injection Hget as ->.
    unfold read in Hread. destruct (readable okd ops k) eqn:Hrk; [|done].
    injection Hread as Hget.
    apply own_value_ref in Hget as Hk. specialize (Hch k c Hk).
    destruct (Hsub k) as [Hsubk _].
    apply tree_root in Hch as Hc.
    destruct d' as [|d'']; [done|].
    destruct Hch as (ckd & cps & _ & Hcl & _).
    split.
    + rewrite (Get_backing s2 q okd ops k); [by rewrite Hget | | done].
      rewrite Hh2. apply (backing_proxy_plain h1 q o (path +:+ ".") okd ops Hq1).
      by rewrite Hsame.
    + exists ckd, cps. rewrite Hh2, Hsame; [done | by apply Hsubk].
Qed.

End FailedDispatch.

(** * Instances of the theorems *)

Section Instances.

Lemma no_listeners_callable (o : loc) (c : value) :
  truthy c = false → callable_listeners (Watcher o c ∅).
Proof.
  intros Hc. split; [|by left]. intros path. exists [].
  unfold listeners. cbn [_watch]. by rewrite lookup_empty.
Defined.

(** [{name: "Ann", age: 3}] at cell 2 is a tree of depth 1. *)
Lemma flat_example_tree :
  tree 1 [Plain Record []; Proxy 0 "";
          Plain Record [("name", VStr "Ann"); ("age", VNum 3)]] 2 {[2]}.
Proof.
  exists Record, [("name", VStr "Ann"); ("age", VNum 3)], (λ _, ∅).
  split_and!; [done | done | done | | set_solver | set_solver | set_solver |].
  - refine (bool_decide_unpack _ _). vm_compute. exact I.
  - intros k c. cbn [assoc]. repeat case_bool_decide; discriminate.
Defined.

(** [{b: {c: 1}, n: "x"}] at cell 3, with the inner record at cell 2,
    is a tree of depth 2. *)
Lemma nested_example_tree :
  tree 2 [Plain Record []; Proxy 0 ""; Plain Record [("c", VNum 1)];
          Plain Record [("b", VRef 2); ("n", VStr "x")]] 3 {[2; 3]}.
Proof.
  exists Record, [("b", VRef 2); ("n", VStr "x")],
    (λ k, if decide (k = "b") then {[2]} else ∅).
  split_and!; [done | done | done | | set_solver | | |].
  - refine (bool_decide_unpack _ _). vm_compute. exact I.
  - intros k. case_decide; set_solver.
  - intros k k' Hne. repeat case_decide; set_solver.
  - intros k c. cbn [assoc]. repeat case_bool_decide; try discriminate.
    intros [= <-]. subst k. rewrite decide_True by done.
    exists Record, [("c", VNum 1)], (λ _, ∅).
    split_and!; [done | done | done | | set_solver | set_solver | set_solver |].
    + refine (bool_decide_unpack _ _). vm_compute. exact I.
    + intros k c. cbn [assoc]. repeat case_bool_decide; discriminate.
Defined.



(** [root.user = {name: "Ann", age: 3}] and [root.a = {b: {c: 1}, n: "x"}]
    on a fresh watcher. *)
Lemma attach_tree_witness :
  (∃ sf, final (assign 3 (Watcher 0 VUndef ∅) 1 "user" (VRef 2)
                  (State [Plain Record []; Proxy 0 "";
                          Plain Record [("name", VStr "Ann"); ("age", VNum 3)]] []))
         = Some sf
         ∧ dispatches (st_trace sf) = [("user", VRef 2, VUndef)])
  ∧ (∃ sf, final (assign 5 (Watcher 0 VUndef ∅) 1 "a" (VRef 3)
                    (State [Plain Record []; Proxy 0 ""; Plain Record [("c", VNum 1)];
                            Plain Record [("b", VRef 2); ("n", VStr "x")]] []))
           = Some sf
           ∧ dispatches (st_trace sf) = [("a", VRef 3, VUndef)]).
Proof.
  split.
  - refine (proj2 (proj2 (proj2 (attach_tree_dispatches_container_only
              (Watcher 0 VUndef ∅)
              (State [Plain Record []; Proxy 0 "";
                      Plain Record [("name", VStr "Ann"); ("age", VNum 3)]] [])
              1 0 "" Record [] "user" 2 1 {[2]} Record [("user", VRef 3)] 3
              eq_refl eq_refl eq_refl flat_example_tree _ _ eq_refl (le_n 3)))) eq_refl).
    + intros l ->%elem_of_singleton. simpl. lia.
    + intros Hl. set_unfold in Hl. lia.
  - refine (proj2 (proj2 (proj2 (attach_tree_dispatches_container_only
              (Watcher 0 VUndef ∅)
              (State [Plain Record []; Proxy 0 ""; Plain Record [("c", VNum 1)];
                      Plain Record [("b", VRef 2); ("n", VStr "x")]] [])
              1 0 "" Record [] "a" 3 2 {[2; 3]} Record [("a", VRef 4)] 5
              eq_refl eq_refl eq_refl nested_example_tree _ _ eq_refl (le_n 5)))) eq_refl).
    + intros l Hl. set_unfold in Hl. destruct Hl as [->| ->]; simpl; lia.
    + intros Hl. set_unfold in Hl. lia.
Defined.

(** The path ["constructor"], a global callback, no listener. *)
Lemma emit_throws_witness :
  emit (Watcher 0 (VFun 9) ∅) "constructor" (VNum 1) VUndef (State [] [])
  = Throw (State [] [Emit "constructor" (VNum 1) VUndef]).
Proof.
  exact (emit_throws_on_inherited_path (Watcher 0 (VFun 9) ∅)
           "constructor" (VNum 1) VUndef (State [] []) 0 eq_refl eq_refl).
Defined.

(** A listener on ["user"] is not called for ["user.name"]. *)
Lemma emit_exact_path_only :
  emit (Watcher 0 VUndef {["user" := [VFun 1]]})
       "user.name" (VStr "Ann") VUndef (State [] [])
  = Ok tt (State [] [Emit "user.name" (VStr "Ann") VUndef]).
Proof.
  exact (emit_functions
           (Watcher 0 VUndef {["user" := [VFun 1]]})
           "user.name" (VStr "Ann") VUndef (State [] []) [] (or_intror eq_refl) eq_refl).
Qed.

(** [unWatch("toString", f)] on a fresh watcher. *)
Lemma unWatch_throws_witness :
  unWatch "toString" (VFun 1) (Watcher 0 VUndef ∅) = TypeError.
Proof.
  exact (unWatch_throws_on_inherited_path (Watcher 0 VUndef ∅) "toString" (VFun 1)
           eq_refl eq_refl).
Defined.

(** [watch("constructor", f)] on a fresh watcher. *)
Lemma watch_throws_witness :
  let self := Watcher 0 VUndef ∅ in
  watch "constructor" (VFun 1) self = TypeError
  ∧ (self1 ← raise (watch "constructor" (VFun 1) self);
     raise (unWatch "constructor" (VFun 1) self1)) (State [] [])
    = Throw (State [] []).
Proof.
  exact (watch_throws_on_inherited_path (Watcher 0 VUndef ∅) "constructor" (VFun 1)
           (State [] []) eq_refl eq_refl).
Defined.

(** No listener on ["x"], a global callback; and the older [change]. *)
Lemma emit_without_listeners_witness :
  let self := Watcher 0 (VFun 9) ∅ in
  emit self "x" (VNum 1) VUndef (State [] [])
  = Ok tt (State [] [Emit "x" (VNum 1) VUndef;
                     Invoke 9 [VStr "x"; VNum 1; VUndef]])
  ∧ Part000.change self "x" (VNum 1) VUndef (State [] []) = Ok tt (State [] []).
Proof.
  pose proof (emit_without_listeners (Watcher 0 (VFun 9) ∅)
                "x" (VNum 1) VUndef (State [] []) eq_refl eq_refl)
    as (He & _ & Hc & _).
  split; [exact (He 9 eq_refl) | exact (Hc None (Some (JNum 1)) eq_refl eq_refl)].
Defined.


(** A container wrapped with prefix ["a."] is wrapped again with the
    same prefix; [x] is then written once. *)
Lemma rewrapping_witness :
  let self := Watcher 0 VUndef ∅ in
  ∃ sf, (w ← _hook 1 "a."; w ← ref_loc w; assign 3 self w "x" (VNum 1))
          (State [Plain Record []; Proxy 0 "a."] []) = Ok tt sf
        ∧ dispatches (st_trace sf)
          = [("a.x", VNum 1, VUndef); ("a.x", VNum 1, VUndef)].
Proof.
  exact (proj2 (proj2 (proj2 (rewrapping_stacks_a_second_layer
            (Watcher 0 VUndef ∅) (State [Plain Record []; Proxy 0 "a."] [])
            0 1 "a." "a." Record [] "x" (VNum 1) Record [("x", VNum 1)] 3
            eq_refl eq_refl eq_refl eq_refl eq_refl eq_refl eq_refl (le_n 3))))
            (no_listeners_callable 0 VUndef eq_refl)
            (or_intror eq_refl) (or_intror eq_refl)).
Defined.

(** Two more listeners registered on ["x"], after a first one. *)
Lemma emit_after_watch_witness :
  ∃ self', watch_all "x" [VFun 2; VFun 3] (Watcher 0 VUndef {["x" := [VFun 1]]})
           = Returns self'
    ∧ emit self' "x" (VNum 1) VUndef (State [] [])
      = Ok tt (State [] [Emit "x" (VNum 1) VUndef; Invoke 1 [VNum 1; VUndef];
                         Invoke 2 [VNum 1; VUndef]; Invoke 3 [VNum 1; VUndef]]).
Proof.
  pose proof (emit_after_watch (Watcher 0 VUndef {["x" := [VFun 1]]})
                "x" [1] [2; 3] (VNum 1) VUndef (State [] []) (or_intror eq_refl)) as H.
  destruct (H eq_refl) as (self' & H1 & H2 & _).
  exists self'. split; [exact H1 | exact H2].
Defined.

(** The listener [1] is registered twice on ["x"], around the listener
    [2]; one registration is removed. *)
Lemma emit_after_unWatch_witness :
  let self := Watcher 0 VUndef {["x" := [VFun 1; VFun 2; VFun 1]]} in
  ∃ self', unWatch "x" (VFun 1) self = Returns (self', true)
    ∧ emit self' "x" (VNum 1) VUndef (State [] [])
      = Ok tt (State [] [Emit "x" (VNum 1) VUndef;
                         Invoke 2 [VNum 1; VUndef]; Invoke 1 [VNum 1; VUndef]]).
Proof.
  exact (emit_after_unWatch (Watcher 0 VUndef {["x" := [VFun 1; VFun 2; VFun 1]]})
           "x" 1 (VNum 1) VUndef (State [] []) [] [2; 1] eq_refl (not_elem_of_nil 1)).
Defined.

(** The listener [2] was never registered on ["x"]. *)
Lemma failed_unWatch_witness :
  let self := Watcher 0 VUndef {["x" := [VFun 1]]} in
  ∃ self', unWatch "x" (VFun 2) self = Returns (self', false)
    ∧ ∀ p' newVal oldVal s,
        emit self' p' newVal oldVal s = emit self p' newVal oldVal s.
Proof.
  refine (failed_unWatch_is_unobservable (Watcher 0 VUndef {["x" := [VFun 1]]})
            "x" (VFun 2) (or_intror eq_refl) (or_introl _)).
  intros H. apply list_elem_of_singleton in H. discriminate H.
Defined.

(** A number registered as a listener between two functions. *)
Lemma emit_stops_witness :
  emit (Watcher 0 (VFun 9) {["x" := [VFun 1; VNum 7; VFun 2]]})
       "x" (VNum 1) VUndef (State [] [])
  = Throw (State [] [Emit "x" (VNum 1) VUndef; Invoke 1 [VNum 1; VUndef]]).
Proof.
  refine (emit_stops_at_non_function
            (Watcher 0 (VFun 9) {["x" := [VFun 1; VNum 7; VFun 2]]})
            "x" (VNum 1) VUndef (State [] []) [1] (VNum 7) [VFun 2] eq_refl _).
  intros g. discriminate.
Defined.

(** [unWatch("x", f)] when [f] is registered twice on ["x"]. *)
Lemma unWatch_removes_first_witness :
  let self := Watcher 0 VUndef {["x" := [VFun 2; VFun 1; VFun 1]]} in
  ∃ self' removed,
    unWatch "x" (VFun 1) self = Returns (self', removed)
    ∧ removed = true
    ∧ _watch self' !! "x" = Some [VFun 2; VFun 1].
Proof.
  destruct (unWatch_removes_first_match
              (Watcher 0 VUndef {["x" := [VFun 2; VFun 1; VFun 1]]}) "x" (VFun 1)
              (or_intror eq_refl))
    as (self' & removed & H1 & _ & H2 & _).
  exists self', removed. split; [exact H1|].
  refine (H2 [VFun 2] [VFun 1] eq_refl _ _); [discriminate|].
  intros H. apply list_elem_of_singleton in H. discriminate H.
Defined.

(** [watch("x", g)] then [unWatch("x", g)] when [f] is registered. *)
Lemma watch_then_unWatch_witness :
  let self := Watcher 0 VUndef {["x" := [VFun 1]]} in
  ∃ self1 self2,
    watch "x" (VFun 2) self = Returns self1
    ∧ unWatch "x" (VFun 2) self1 = Returns (self2, true)
    ∧ _watch self2 !! "x" = Some [VFun 1].
Proof.
  destruct (watch_then_unWatch (Watcher 0 VUndef {["x" := [VFun 1]]}) "x" (VFun 2)
              (or_intror eq_refl))
    as (self1 & self2 & H1 & H2 & _ & H3 & _); [discriminate|].
  exists self1, self2. split_and!; [exact H1 | exact H2 |].
  apply H3. intros H. apply list_elem_of_singleton in H. discriminate H.
Defined.

(** [root.count = 1] on a fresh watcher, then reading [root.count]. *)
Lemma read_after_write_witness :
  let sf := State [Plain Record [("count", VNum 1)]; Proxy 0 ""]
                  [Emit "count" (VNum 1) VUndef] in
  final (assign 2 (Watcher 0 VUndef ∅) 1 "count" (VNum 1)
           (State [Plain Record []; Proxy 0 ""] [])) = Some sf
  ∧ Get 1 "count" sf = Ok (VNum 1) sf.
Proof.
  split; [reflexivity|].
  refine (proj1 (read_after_write (Watcher 0 VUndef ∅)
                   (State [Plain Record []; Proxy 0 ""] [])
                   1 0 "" Record [] "count" (VNum 1) Record [("count", VNum 1)] 2
                   (State [Plain Record [("count", VNum 1)]; Proxy 0 ""]
                          [Emit "count" (VNum 1) VUndef])
                   eq_refl eq_refl eq_refl eq_refl eq_refl _ (le_n 2) eq_refl)).
  discriminate.
Defined.

(** [root.count = 1] when [root.count] is [1] already. *)
Lemma rewrite_same_value_witness :
  let s := State [Plain Record [("count", VNum 1)]; Proxy 0 ""] [] in
  assign 2 (Watcher 0 (VFun 9) ∅) 1 "count" (VNum 1) s = Ok tt s.
Proof.
  exact (rewrite_same_value_is_noop (Watcher 0 (VFun 9) ∅)
           (State [Plain Record [("count", VNum 1)]; Proxy 0 ""] [])
           1 0 "" Record [("count", VNum 1)] "count" (VNum 1) 2
           eq_refl eq_refl I eq_refl eq_refl (le_n 2)).
Defined.

(** [root.a = {n: 1}] when [root.a] is a wrapper of another [{n: 1}]. *)
Lemma equal_copy_witness :
  assign 3 (Watcher 0 (VFun 9) ∅) 1 "a" (VRef 4)
    (State [Plain Record [("a", VRef 2)]; Proxy 0 ""; Proxy 3 "a.";
            Plain Record [("n", VNum 1)]; Plain Record [("n", VNum 1)]] [])
  = Ok tt (State [Plain Record [("a", VRef 5)]; Proxy 0 ""; Proxy 3 "a.";
                  Plain Record [("n", VNum 1)]; Plain Record [("n", VNum 1)];
                  Proxy 4 "a."] []).
Proof.
  refine (equal_copy_is_no_change (Watcher 0 (VFun 9) ∅)
            (State [Plain Record [("a", VRef 2)]; Proxy 0 ""; Proxy 3 "a.";
                    Plain Record [("n", VNum 1)]; Plain Record [("n", VNum 1)]] [])
            1 0 "" Record [("a", VRef 2)] "a" 2 3 "a." 4 Record [("n", VNum 1)]
            Record [("a", VRef 5)] 3
            eq_refl eq_refl eq_refl eq_refl eq_refl eq_refl eq_refl _ I eq_refl _ _
            eq_refl (le_n 3)).
  - repeat constructor.
  - discriminate.
  - discriminate.
Defined.

(** [root.a = 5] when [root.a] is a wrapper of [{n: 1}]. *)
Lemma primitive_over_container_witness :
  ∃ sf, final (assign 2 (Watcher 0 VUndef ∅) 1 "a" (VNum 5)
                 (State [Plain Record [("a", VRef 2)]; Proxy 0 ""; Proxy 3 "a.";
                         Plain Record [("n", VNum 1)]] [])) = Some sf
        ∧ dispatches (st_trace sf) = [("a", VNum 5, VRef 2)].
Proof.
  refine (proj2 (primitive_over_container_dispatches (Watcher 0 VUndef ∅)
                   (State [Plain Record [("a", VRef 2)]; Proxy 0 ""; Proxy 3 "a.";
                           Plain Record [("n", VNum 1)]] [])
                   1 0 "" Record [("a", VRef 2)] "a" 2 3 "a." Record [("n", VNum 1)]
                   (VNum 5) Record [("a", VNum 5)] 2
                   eq_refl eq_refl eq_refl eq_refl eq_refl eq_refl _ eq_refl _
                   eq_refl eq_refl (le_n 2))).
  - repeat constructor.
  - discriminate.
Defined.

(** [var a = {}; a.self = a; root.x = a] *)
Lemma self_reference_witness :
  assign 2 (Watcher 0 (VFun 9) ∅) 1 "x" (VRef 2)
    (State [Plain Record []; Proxy 0 ""; Plain Record [("self", VRef 2)]] [])
  = Throw (State [Plain Record [("x", VRef 3)]; Proxy 0 "";
                  Plain Record [("self", VRef 2)]; Proxy 2 "x."] []).
Proof.
  refine (self_reference_write_throws (Watcher 0 (VFun 9) ∅)
            (State [Plain Record []; Proxy 0 ""; Plain Record [("self", VRef 2)]] [])
            1 0 "" Record [] "x" 2 [("self", VRef 2)] "self" Record [("x", VRef 3)] 2
            eq_refl eq_refl eq_refl eq_refl eq_refl _ _ eq_refl _ _ eq_refl (le_n 2)).
  - constructor; [by right | constructor].
  - refine (bool_decide_unpack _ _). vm_compute. exact I.
  - discriminate.
  - discriminate.
Defined.

(** [var root = new MutationWatcher(g); root.count = 1] *)
Lemma global_callback_witness :
  (wr ← MutationWatcher_new (VFun 9);
   root ← ref_loc wr.2;
   assign 2 wr.1 root "count" (VNum 1)) (State [] [])
  = Ok tt (State [Plain Record [("count", VNum 1)]; Proxy 0 ""]
                 [Emit "count" (VNum 1) VUndef;
                  Invoke 9 [VStr "count"; VNum 1; VUndef]]).
Proof.
  refine (global_callback_sees_root_write 9 "count" (VNum 1) 2 (State [] [])
            eq_refl eq_refl _ (le_n 2)).
  discriminate.
Defined.

(** The older variant: [root.count = 1] with a listener on ["count"]. *)
Lemma part000_watched_write_witness :
  Part000Trap.assign 2 (Watcher 0 VUndef {["count" := [VFun 1]]}) 1 "count" (VNum 1)
    (State [Plain Record []; Proxy 0 ""] [])
  = Throw (State [Plain Record [("count", VNum 1)]; Proxy 0 ""] []).
Proof.
  exact (part000_watched_write_throws (Watcher 0 VUndef {["count" := [VFun 1]]})
           (State [Plain Record []; Proxy 0 ""] [])
           1 0 "" Record [] "count" (VNum 1) Record [("count", VNum 1)] 2
           eq_refl eq_refl eq_refl (or_intror eq_refl) eq_refl eq_refl eq_refl (le_n 2)).
Defined.

(** The older variant: [root.user = {name: "Ann", age: 3}] with a
    listener on ["user.age"]. *)
Lemma part000_attach_flat_witness :
  Part000Trap.assign 3 (Watcher 0 VUndef {["user.age" := [VFun 1]]}) 1 "user" (VRef 2)
    (State [Plain Record []; Proxy 0 "";
            Plain Record [("name", VStr "Ann"); ("age", VNum 3)]] [])
  = Throw (State [Plain Record [("user", VRef 3)]; Proxy 0 "";
                  Plain Record [("name", VStr "Ann"); ("age", VNum 3)];
                  Proxy 2 "user."] []).
Proof.
  refine (part000_attach_flat (Watcher 0 VUndef {["user.age" := [VFun 1]]})
            (State [Plain Record []; Proxy 0 "";
                    Plain Record [("name", VStr "Ann"); ("age", VNum 3)]] [])
            1 0 "" Record [] "user" 2 Record [("name", VStr "Ann"); ("age", VNum 3)]
            Record [("user", VRef 3)] 3
            eq_refl eq_refl eq_refl (or_intror eq_refl) eq_refl eq_refl _ _ I eq_refl
            eq_refl (le_n 3)).
  - discriminate.
  - repeat constructor.
Defined.

(** The older variant: [var root = new MutationWatcher(obj, g); root.count = 1] *)
Lemma part000_constructed_value_witness :
  (wr ← Part000Trap.MutationWatcher_new 0 (VFun 9);
   root ← ref_loc wr.2;
   Part000Trap.assign 2 wr.1 root "count" (VNum 1)) (State [Plain Record []] [])
  = Ok tt (State [Plain Record [("count", VNum 1)]; Proxy 0 ""] []).
Proof.
  exact (part000_constructed_value_writes_through 0 (VFun 9) (State [Plain Record []] [])
           Record [] "count" (VNum 1) Record [("count", VNum 1)] 2
           eq_refl eq_refl eq_refl eq_refl eq_refl eq_refl (le_n 2)).
Defined.

(** Three wrappers, with prefixes ["c."], ["b."] and ["a."] from the
    outside in, around one record. *)
Lemma three_layers :
  layers [Plain Record []; Proxy 0 "a."; Proxy 1 "b."; Proxy 2 "c."]
         3 ["c."; "b."; "a."] 0.
Proof.
  apply (layers_wrap _ 3 2 "c."); [reflexivity | apply le_n |].
  apply (layers_wrap _ 2 1 "b."); [reflexivity | apply le_n |].
  apply (layers_wrap _ 1 0 "a."); [reflexivity | apply le_n |].
  apply layers_here.
Defined.

Lemma write_through_layers_witness :
  ∃ tr, assign 4 (Watcher 0 VUndef ∅) 3 "x" (VNum 1)
          (State [Plain Record []; Proxy 0 "a."; Proxy 1 "b."; Proxy 2 "c."] [])
        = Ok tt (State [Plain Record [("x", VNum 1)];
                        Proxy 0 "a."; Proxy 1 "b."; Proxy 2 "c."] tr)
        ∧ dispatches tr
          = [("a.x", VNum 1, VUndef); ("b.x", VNum 1, VUndef); ("c.x", VNum 1, VUndef)].
Proof.
  refine (write_through_layers_dispatches_per_layer (Watcher 0 VUndef ∅)
            (State [Plain Record []; Proxy 0 "a."; Proxy 1 "b."; Proxy 2 "c."] [])
            3 ["c."; "b."; "a."] 0 Record [] "x" (VNum 1) Record [("x", VNum 1)] 4
            three_layers eq_refl eq_refl eq_refl eq_refl eq_refl eq_refl
            (no_listeners_callable 0 VUndef eq_refl) _ (le_n 4)).
  intros pre Hpre. right.
  apply elem_of_cons in Hpre as [H|Hpre]; [by subst pre|].
  apply elem_of_cons in Hpre as [H|Hpre]; [by subst pre|].
  apply list_elem_of_singleton in Hpre. by subst pre.
Defined.

(** [root.a = {b: {c: 1}, n: "x"}] when a number is registered as a
    listener on ["a"]. *)
Lemma failed_dispatch_witness :
  let self := Watcher 0 VUndef {["a" := [VNum 7]]} in
  let h := [Plain Record []; Proxy 0 ""; Plain Record [("c", VNum 1)];
            Plain Record [("b", VRef 2); ("n", VStr "x")]] in
  let s2 := State [Plain Record [("a", VRef 4)]; Proxy 0 "";
                   Plain Record [("c", VNum 1)];
                   Plain Record [("b", VRef 2); ("n", VStr "x")]; Proxy 3 "a."]
                  [Emit "a" (VRef 3) VUndef] in
  assign 5 self 1 "a" (VRef 3) (State h []) = Throw s2
  ∧ Get 1 "a" s2 = Ok (VRef 4) s2
  ∧ st_heap s2 !! 4 = Some (Proxy 3 "a.")
  ∧ ∀ k c, Get 3 k (State h []) = Ok (VRef c) (State h []) →
      Get 4 k s2 = Ok (VRef c) s2
      ∧ ∃ ckd cps, st_heap s2 !! c = Some (Plain ckd cps).
Proof.
  refine (failed_dispatch_leaves_tree_unwrapped
            (Watcher 0 VUndef {["a" := [VNum 7]]})
            (State [Plain Record []; Proxy 0 ""; Plain Record [("c", VNum 1)];
                    Plain Record [("b", VRef 2); ("n", VStr "x")]] [])
            1 0 "" Record [] "a" 3 2 {[2; 3]} Record [("a", VRef 4)] 5
            (State [Plain Record [("a", VRef 4)]; Proxy 0 "";
                    Plain Record [("c", VNum 1)];
                    Plain Record [("b", VRef 2); ("n", VStr "x")]; Proxy 3 "a."]
                   [Emit "a" (VRef 3) VUndef])
            eq_refl eq_refl eq_refl nested_example_tree _ _ eq_refl eq_refl _
            (le_n 5) eq_refl).
  - intros l Hl. set_unfold in Hl. destruct Hl as [->| ->]; simpl; lia.
  - intros Hl. set_unfold in Hl. lia.
  - discriminate.
Defined.

End Instances.
